(** * Asset manager of DAKOSYS: a shallow embedding of [asset_manager.py]

    The Python module reads a configuration (a YAML document), asks the
    Trakt collaborators for the user's lists, classifies them into four
    collection categories, diffs the result against the collections file on
    disk, rewrites it when needed and creates the overlay files.

    Modelling choices:
    - YAML/JSON documents are the inductive [yval]; a Python [dict] is an
      association list with string keys (first binding wins, as keys of a
      dict are distinct).
    - Python exceptions are the [Exc] branch of [res]; stateful code runs in
      the monad [M]: a world (files and directories) threaded through, and a
      log of the files written, in order.
    - The collaborators (Trakt authentication, the HTTP call, and the
      success of directory creation, file reads and file writes) are the
      fields of a static environment [env].
    - A file written with [yaml.dump] and read back with [yaml.safe_load]
      gives back the same document ([FYaml v]); [FRaw] is a file whose
      content does not parse.
    - [os.makedirs] records the directory it is asked for (not its parents). *)

From Stdlib Require Import String Ascii List Bool ZArith Lia.
Import ListNotations.
Open Scope string_scope.
Set Warnings "-register-all".

(** ** Python values *)

Inductive yval : Type :=
| YNull
| YBool (b : bool)
| YInt (z : Z)
| YStr (s : string)
| YList (l : list yval)
| YMap (m : list (string * yval)).

Inductive exn : Type :=
| AttributeError | TypeError | KeyError | OSError
| ConnectionError | JSONDecodeError | AuthError.

Inductive res (A : Type) : Type :=
| Ret (a : A)
| Exc (e : exn).
Arguments Ret {A} a.
Arguments Exc {A} e.

Definition rbind {A B} (r : res A) (k : A -> res B) : res B :=
  match r with Ret a => k a | Exc e => Exc e end.

Notation "x <-? r ;; k" := (rbind r (fun x => k))
  (at level 61, r at next level, right associativity).

(** Lookup in a dict: the first binding of [k]. *)
Fixpoint assoc {A} (k : string) (l : list (string * A)) : option A :=
  match l with
  | [] => None
  | (k', v) :: l' => if String.eqb k k' then Some v else assoc k l'
  end.

(** [d[k] = v] on a dict: replace in place, or add at the end. *)
Fixpoint dict_set {A} (l : list (string * A)) (k : string) (v : A)
  : list (string * A) :=
  match l with
  | [] => [(k, v)]
  | (k', v') :: l' =>
      if String.eqb k k' then (k', v) :: l' else (k', v') :: dict_set l' k v
  end.

(** [bool(v)] *)
Definition truthy (v : yval) : bool :=
  match v with
  | YNull => false
  | YBool b => b
  | YInt z => negb (Z.eqb z 0)
  | YStr s => negb (String.eqb s "")
  | YList l => negb (match l with [] => true | _ => false end)
  | YMap m => negb (match m with [] => true | _ => false end)
  end.

(** [d.get(k, default)]: only a dict has [get]. *)
Definition pyget (d : yval) (k : string) (dflt : yval) : res yval :=
  match d with
  | YMap m => Ret (match assoc k m with Some v => v | None => dflt end)
  | _ => Exc AttributeError
  end.

(** [d[k]] with a string key. *)
Definition py_getitem (d : yval) (k : string) : res yval :=
  match d with
  | YMap m => match assoc k m with Some v => Ret v | None => Exc KeyError end
  | _ => Exc TypeError
  end.

(** [d[k] = v] with a string key. *)
Definition py_setitem (d : yval) (k : string) (v : yval) : res yval :=
  match d with
  | YMap m => Ret (YMap (dict_set m k v))
  | _ => Exc TypeError
  end.

(** [d.copy()]: dicts and lists have it (a shallow copy). *)
Definition py_copy (d : yval) : res yval :=
  match d with
  | YMap _ | YList _ => Ret d
  | _ => Exc AttributeError
  end.

(** [d.items()] *)
Definition py_items (d : yval) : res (list (string * yval)) :=
  match d with
  | YMap m => Ret m
  | _ => Exc AttributeError
  end.

Fixpoint is_prefix (p s : string) : bool :=
  match p, s with
  | EmptyString, _ => true
  | String c p', String c' s' => Ascii.eqb c c' && is_prefix p' s'
  | String _ _, EmptyString => false
  end.

Fixpoint is_substring (p s : string) : bool :=
  is_prefix p s ||
  match s with EmptyString => false | String _ s' => is_substring p s' end.

(** [k in c] for a string [k]. *)
Definition py_contains (c : yval) (k : string) : res bool :=
  match c with
  | YMap m => Ret (match assoc k m with Some _ => true | None => false end)
  | YList l =>
      Ret (existsb (fun x => match x with YStr s => String.eqb s k | _ => false end) l)
  | YStr s => Ret (is_substring k s)
  | _ => Exc TypeError
  end.

Fixpoint chars (s : string) : list yval :=
  match s with
  | EmptyString => []
  | String c s' => YStr (String c EmptyString) :: chars s'
  end.

(** [iter(v)] *)
Definition py_iter (v : yval) : res (list yval) :=
  match v with
  | YList l => Ret l
  | YMap m => Ret (map (fun kv => YStr (fst kv)) m)
  | YStr s => Ret (chars s)
  | _ => Exc TypeError
  end.

(** Hashable values, as set elements ([True == 1] and [hash(True) == 1]). *)
Inductive atom : Type := AStr (s : string) | AInt (z : Z) | ANone.

Definition atom_eqb (a b : atom) : bool :=
  match a, b with
  | AStr s, AStr t => String.eqb s t
  | AInt x, AInt y => Z.eqb x y
  | ANone, ANone => true
  | _, _ => false
  end.

Definition to_atom (v : yval) : res atom :=
  match v with
  | YNull => Ret ANone
  | YBool b => Ret (AInt (if b then 1 else 0)%Z)
  | YInt z => Ret (AInt z)
  | YStr s => Ret (AStr s)
  | _ => Exc TypeError
  end.

Fixpoint map_res {A B} (f : A -> res B) (l : list A) : res (list B) :=
  match l with
  | [] => Ret []
  | x :: l' => y <-? f x ;; ys <-? map_res f l' ;; Ret (y :: ys)
  end.

(** [set(v)], as the list of its elements. *)
Definition py_set (v : yval) : res (list atom) :=
  xs <-? py_iter v ;; map_res to_atom xs.

Definition subset_b (a b : list atom) : bool :=
  forallb (fun x => existsb (atom_eqb x) b) a.

(** [==] on two sets. *)
Definition set_eqb (a b : list atom) : bool := subset_b a b && subset_b b a.

(** ** String helpers *)

(** [str.lower()] on ASCII text. *)
Definition lower_ascii (c : ascii) : ascii :=
  let n := nat_of_ascii c in
  if (65 <=? n)%nat && (n <=? 90)%nat then ascii_of_nat (n + 32)%nat else c.

Fixpoint lower (s : string) : string :=
  match s with
  | EmptyString => EmptyString
  | String c s' => String (lower_ascii c) (lower s')
  end.

(** [s.split('_', 1)] when [s] holds an underscore: the text before the first
    underscore and the text after it. *)
Fixpoint split_first (sep : ascii) (s : string) : option (string * string) :=
  match s with
  | EmptyString => None
  | String c s' =>
      if Ascii.eqb c sep then Some (EmptyString, s')
      else match split_first sep s' with
           | Some (a, b) => Some (String c a, b)
           | None => None
           end
  end.

(** [s.replace(old, new)] for a non-empty [old]. *)
Fixpoint replace_fuel (fuel : nat) (old new s : string) : string :=
  match fuel with
  | O => s
  | S f =>
      match s with
      | EmptyString => EmptyString
      | String c s' =>
          if is_prefix old s
          then new ++ replace_fuel f old new (substring (String.length old)
                                                (String.length s) s)
          else String c (replace_fuel f old new s')
      end
  end.

Definition py_replace (old new s : string) : string :=
  replace_fuel (String.length s) old new s.

Fixpoint digits_fuel (fuel : nat) (n : N) (acc : string) : string :=
  match fuel with
  | O => acc
  | S f =>
      let d := N.modulo n 10 in
      let acc' := String (ascii_of_N (48 + d)%N) acc in
      if (n <? 10)%N then acc' else digits_fuel f (N.div n 10) acc'
  end.

Definition z_to_string (z : Z) : string :=
  match z with
  | Z0 => "0"
  | Zpos p => digits_fuel (Pos.size_nat p) (Npos p) ""
  | Zneg p => "-" ++ digits_fuel (Pos.size_nat p) (Npos p) ""
  end.

Fixpoint join_sep (sep : string) (l : list string) : string :=
  match l with
  | [] => ""
  | [x] => x
  | x :: l' => x ++ sep ++ join_sep sep l'
  end.

(** [repr(v)] (strings quoted with single quotes) and [str(v)], as used by an
    f-string. *)
Fixpoint py_repr (v : yval) : string :=
  match v with
  | YNull => "None"
  | YBool b => if b then "True" else "False"
  | YInt z => z_to_string z
  | YStr s => "'" ++ s ++ "'"
  | YList l => "[" ++ join_sep ", " (map py_repr l) ++ "]"
  | YMap m =>
      "{" ++ join_sep ", " (map (fun kv => "'" ++ fst kv ++ "': " ++ py_repr (snd kv)) m)
      ++ "}"
  end.

Definition py_str (v : yval) : string :=
  match v with
  | YStr s => s
  | _ => py_repr v
  end.

Definition slash : ascii := "/"%char.

Definition ends_with_slash (s : string) : bool :=
  match String.get (String.length s - 1)%nat s with
  | Some c => Ascii.eqb c slash
  | None => false
  end.

(** [os.path.join(a, b)] (posixpath). *)
Definition join (a b : string) : string :=
  if is_prefix "/" b then b
  else if String.eqb a "" || ends_with_slash a then a ++ b
  else a ++ "/" ++ b.

Fixpoint rfind_slash_aux (i : nat) (s : string) (best : option nat) : option nat :=
  match s with
  | EmptyString => best
  | String c s' =>
      rfind_slash_aux (S i) s' (if Ascii.eqb c slash then Some i else best)
  end.

Fixpoint all_slashes (s : string) : bool :=
  match s with
  | EmptyString => true
  | String c s' => Ascii.eqb c slash && all_slashes s'
  end.

Fixpoint rstrip_slash (s : string) : string :=
  match s with
  | EmptyString => EmptyString
  | String c s' =>
      let r := rstrip_slash s' in
      if Ascii.eqb c slash && String.eqb r "" then "" else String c r
  end.

(** [os.path.dirname(p)] (posixpath): the head up to the last slash, with
    trailing slashes removed unless the head is all slashes. *)
Definition dirname (p : string) : string :=
  let i := match rfind_slash_aux 0 p None with Some k => S k | None => 0 end in
  let head := substring 0 i p in
  if negb (String.eqb head "") && negb (all_slashes head)
  then rstrip_slash head else head.

(** [os.path.basename(p)] (posixpath): the tail after the last slash. *)
Definition basename (p : string) : string :=
  let i := match rfind_slash_aux 0 p None with Some k => S k | None => 0 end in
  substring i (String.length p - i) p.

(** A configured path: Python hands it to [os.path]; a value that is not a
    string makes it raise [TypeError] (integers, which [os.stat] reads as
    file descriptors, are not modelled). *)
Definition py_path (v : yval) : res string :=
  match v with
  | YStr s => Ret s
  | _ => Exc TypeError
  end.

(** ** The filesystem, the collaborators and the monad *)

Inductive fcontent : Type :=
| FYaml (v : yval)      (* a YAML document *)
| FRaw (s : string).    (* any other bytes (not parseable as YAML) *)

Record world : Type := mkWorld {
  files : list (string * fcontent);
  dirs : list string
}.

Definition lookup_file (w : world) (p : string) : option fcontent :=
  assoc p (files w).

(** [os.path.exists(p)] *)
Definition exists_ (w : world) (p : string) : bool :=
  match lookup_file w p with
  | Some _ => true
  | None => existsb (String.eqb p) (dirs w)
  end.

Definition set_file (w : world) (p : string) (c : fcontent) : world :=
  mkWorld ((p, c) :: files w) (dirs w).

Definition add_dir (w : world) (d : string) : world :=
  mkWorld (files w) (d :: dirs w).

(** [os.path.isdir(p)] *)
Definition isdir (w : world) (p : string) : bool :=
  match lookup_file w p with
  | Some _ => false
  | None => existsb (String.eqb p) (dirs w)
  end.

(** What [trakt_auth.ensure_trakt_auth] does: a token, [None], or an exception. *)
Inductive auth_out : Type := AuthTok | AuthNone | AuthRaise.

(** What [requests.get(...)] does: raise, or answer with a status code and a
    body, [None] when [response.json()] cannot decode it. *)
Inductive http_out : Type :=
| HttpRaise
| HttpResp (status : Z) (body : option yval).

Record env : Type := mkEnv {
  mkdir_ok : string -> bool;   (* os.makedirs succeeds *)
  write_ok : string -> bool;   (* open(p, 'w') succeeds *)
  read_ok : string -> bool;    (* open(p, 'r') succeeds *)
  auth : auth_out;
  http : http_out
}.

Record out (A : Type) : Type := mkOut {
  out_res : res A;
  out_world : world;
  out_log : list (string * fcontent)
}.
Arguments mkOut {A} out_res out_world out_log.
Arguments out_res {A} o.
Arguments out_world {A} o.
Arguments out_log {A} o.

Definition M (A : Type) : Type := world -> out A.

Definition ret {A} (a : A) : M A := fun w => mkOut (Ret a) w [].

Definition throw {A} (e : exn) : M A := fun w => mkOut (Exc e) w [].

Definition lift {A} (r : res A) : M A := fun w => mkOut r w [].

Definition bind {A B} (m : M A) (k : A -> M B) : M B :=
  fun w =>
    match m w with
    | mkOut (Ret a) w1 l1 =>
        let o := k a w1 in mkOut (out_res o) (out_world o) (l1 ++ out_log o)
    | mkOut (Exc e) w1 l1 => mkOut (Exc e) w1 l1
    end.

Notation "x <- m ;; k" := (bind m (fun x => k))
  (at level 61, m at next level, right associativity).
Notation "m ;;; k" := (bind m (fun _ => k))
  (at level 61, right associativity).

(** [try: m except Exception: h]; the effects of [m] before the exception stay. *)
Definition try_ {A} (m : M A) (h : exn -> M A) : M A :=
  fun w =>
    match m w with
    | mkOut (Ret a) w1 l1 => mkOut (Ret a) w1 l1
    | mkOut (Exc e) w1 l1 =>
        let o := h e w1 in mkOut (out_res o) (out_world o) (l1 ++ out_log o)
    end.

Definition exists_m (p : string) : M bool :=
  fun w => mkOut (Ret (exists_ w p)) w [].

(** [open(p, 'w')] then [yaml.dump] (or [shutil.copy2]'s write). A
    successful write is recorded in the log; a failed one is modelled as an
    [OSError] that leaves the world as it was. In Python [open(p, 'w')] may
    already have created or truncated [p] when the dump fails: the model does
    not describe the file's content after a failed write. *)
Definition write_file (E : env) (p : string) (c : fcontent) : M unit :=
  fun w =>
    if write_ok E p then mkOut (Ret tt) (set_file w p c) [(p, c)]
    else mkOut (Exc OSError) w [].

(** [ensure_directory(directory)] *)
Definition ensure_directory (E : env) (d : string) : M bool :=
  fun w =>
    if exists_ w d then mkOut (Ret true) w []
    else if mkdir_ok E d then mkOut (Ret true) (add_dir w d) []
    else mkOut (Ret false) w [].

(** [get_kometa_paths(config)] *)
Definition get_kometa_paths (config : yval) : res (yval * yval) :=
  kc <-? pyget config "kometa_config" (YMap []) ;;
  y0 <-? pyget kc "yaml_output_dir" YNull ;;
  kc' <-? pyget config "kometa_config" (YMap []) ;;
  c0 <-? pyget kc' "collections_dir" YNull ;;
  y1 <-? (if negb (truthy y0) then
            b1 <-? py_contains config "services" ;;
            if b1 then
              sv <-? py_getitem config "services" ;;
              b2 <-? py_contains sv "tv_status_tracker" ;;
              if b2 then
                t <-? py_getitem sv "tv_status_tracker" ;;
                pyget t "yaml_output_dir" YNull
              else Ret y0
            else Ret y0
          else Ret y0) ;;
  c1 <-? (if negb (truthy c0) then
            b1 <-? py_contains config "services" ;;
            if b1 then
              sv <-? py_getitem config "services" ;;
              b2 <-? py_contains sv "tv_status_tracker" ;;
              if b2 then
                t <-? py_getitem sv "tv_status_tracker" ;;
                pyget t "collections_dir" YNull
              else Ret c0
            else Ret c0
          else Ret c0) ;;
  let y2 := if negb (truthy y1) then YStr "/kometa/config/overlays" else y1 in
  let c2 := if negb (truthy c1) then YStr "/kometa/config/collections" else c1 in
  Ret (y2, c2).

(** ** Classification of the Trakt lists *)

(** The keys of [collections_data], in the order of the dict literal. *)
Definition category_names : list string :=
  ["Fillers"; "Manga Canon"; "Anime Canon"; "Mixed Canon/Filler"].

Definition cdata : Type := list (string * list string).

Definition empty_collections_data : cdata := map (fun n => (n, [])) category_names.

(** The [if/elif] chain on [episode_type.lower()]. *)
Definition category_of (t : string) : option string :=
  if String.eqb t "filler" then Some "Fillers"
  else if String.eqb t "manga-canon" then Some "Manga Canon"
  else if String.eqb t "manga canon" then Some "Manga Canon"
  else if String.eqb t "anime-canon" then Some "Anime Canon"
  else if String.eqb t "anime canon" then Some "Anime Canon"
  else if String.eqb t "mixed-canon-filler" then Some "Mixed Canon/Filler"
  else if String.eqb t "mixed canon/filler" then Some "Mixed Canon/Filler"
  else None.

(** One iteration of [for trakt_list in trakt_lists]: the category and the
    URL to append, if any. *)
Definition classify_one (user : string) (trakt_list : yval)
  : res (option (string * string)) :=
  name <-? pyget trakt_list "name" (YStr "") ;;
  has <-? py_contains name "_" ;;
  if negb has then Ret None else
  match name with
  | YStr s =>
      match split_first "_"%char s with
      | Some (_, episode_type) =>
          ids <-? pyget trakt_list "ids" (YMap []) ;;
          list_slug <-? pyget ids "slug" name ;;
          let list_url := "https://trakt.tv/users/" ++ user ++ "/lists/"
                          ++ py_str list_slug in
          Ret (match category_of (lower episode_type) with
               | Some c => Some (c, list_url)
               | None => None
               end)
      | None => Ret None
      end
  | _ => Exc AttributeError   (* [name.split] on a list or a dict *)
  end.

(** [collections_data[c].append(u)] *)
Fixpoint cd_append (d : cdata) (c u : string) : cdata :=
  match d with
  | [] => []
  | (k, us) :: d' => if String.eqb c k then (k, app us [u]) :: d' else (k, us) :: cd_append d' c u
  end.

Fixpoint classify_loop (user : string) (ls : list yval) (d : cdata) : res cdata :=
  match ls with
  | [] => Ret d
  | l :: ls' =>
      x <-? classify_one user l ;;
      match x with
      | Some (c, u) => classify_loop user ls' (cd_append d c u)
      | None => classify_loop user ls' d
      end
  end.

Definition classify (user : string) (trakt_lists : yval) : res cdata :=
  ls <-? py_iter trakt_lists ;; classify_loop user ls empty_collections_data.

(** The pure middle of [sync_anime_episode_collections]: the username check,
    the token, the HTTP call, [response.json()] and the classification.
    [Ret None] stands for the [return False] branches. *)
Definition fetch_lists (E : env) (config : yval) : res (option cdata) :=
  tr <-? pyget config "trakt" (YMap []) ;;
  trakt_username <-? pyget tr "username" YNull ;;
  if negb (truthy trakt_username) then Ret None else
  match auth E with
  | AuthRaise => Exc AuthError
  | AuthNone => Ret None
  | AuthTok =>
      match http E with
      | HttpRaise => Exc ConnectionError
      | HttpResp status body =>
          if negb (Z.eqb status 200) then Ret None else
          match body with
          | None => Exc JSONDecodeError
          | Some trakt_lists =>
              d <-? classify (py_str trakt_username) trakt_lists ;; Ret (Some d)
          end
      end
  end.

(** ** Change detection and the new collections document *)

Definition collections_file_name : string := "anime_episode_type.yml".

Definition empty_existing : yval := YMap [("collections", YMap [])].

(** Reading [collections_file]: [yaml.safe_load(file) or {'collections': {}}];
    a missing file, a failed open or a parse error give [{'collections': {}}]. *)
Definition existing_of (E : env) (w : world) (p : string) : yval :=
  if exists_ w p then
    match lookup_file w p with
    | Some (FYaml v) =>
        if read_ok E p then (if truthy v then v else empty_existing) else empty_existing
    | _ => empty_existing
    end
  else empty_existing.

Definition read_existing (E : env) (p : string) : M yval :=
  fun w => mkOut (Ret (existing_of E w p)) w [].

(** The [for collection_name, collection_data in ...items()] loop. *)
Fixpoint detect_items (d : cdata) (items : list (string * yval)) : res bool :=
  match items with
  | [] => Ret false
  | (collection_name, collection_data) :: rest =>
      tl <-? pyget collection_data "trakt_list" (YList []) ;;
      existing_lists <-? py_set tl ;;
      match assoc collection_name d with
      | Some urls =>
          if set_eqb existing_lists (map AStr urls) then detect_items d rest
          else Ret true   (* changes_detected = True; break *)
      | None => detect_items d rest
      end
  end.

Definition detect_changes (existing : yval) (d : cdata) : res bool :=
  if truthy existing then
    colls <-? pyget existing "collections" (YMap []) ;;
    items <-? py_items colls ;;
    detect_items d items
  else Ret false.

Definition default_settings (collection_name : string) (list_urls : list string) : yval :=
  YMap [("trakt_list", YList (map YStr list_urls));
        ("sync_mode", YStr "sync");
        ("item_label", YStr (py_replace " Canon" "Canon"
                               (py_replace " Canon/Filler" "" collection_name)));
        ("builder_level", YStr "episode");
        ("cache_builders", YInt 6)].

(** The settings written for one category. *)
Definition new_settings (existing : yval) (collection_name : string)
  (list_urls : list string) : res yval :=
  has <-? (if truthy existing then
             b1 <-? py_contains existing "collections" ;;
             if b1 then
               cs <-? py_getitem existing "collections" ;;
               py_contains cs collection_name
             else Ret false
           else Ret false) ;;
  if has then
    cs <-? py_getitem existing "collections" ;;
    e <-? py_getitem cs collection_name ;;
    s <-? py_copy e ;;
    py_setitem s "trakt_list" (YList (map YStr list_urls))
  else Ret (default_settings collection_name list_urls).

Fixpoint build_entries (existing : yval) (d : cdata) (acc : list (string * yval))
  : res (list (string * yval)) :=
  match d with
  | [] => Ret acc
  | (collection_name, list_urls) :: d' =>
      s <-? new_settings existing collection_name list_urls ;;
      build_entries existing d' (dict_set acc collection_name s)
  end.

Definition build_new_collections (existing : yval) (d : cdata) : res yval :=
  entries <-? build_entries existing d [] ;;
  Ret (YMap [("collections", YMap entries)]).

(** ** [create_anime_overlay_files] *)

Record overlay_cfg : Type := mkOverlayCfg {
  oc_file : string; oc_overlay_name : string; oc_name : string; oc_label : string
}.

Definition overlay_configs : list overlay_cfg :=
  [mkOverlayCfg "fillers.yml" "filler_overlay" "Filler" "Filler";
   mkOverlayCfg "manga_canon.yml" "manga_overlay" "Manga Canon" "MangaCanon";
   mkOverlayCfg "anime_canon.yml" "anime_overlay" "Anime Canon" "AnimeCanon";
   mkOverlayCfg "mixed.yml" "mixed_overlay" "Mixed Canon/Filler" "Mixed"].

Definition overlay_file_names : list string := map oc_file overlay_configs.

Definition font_path : string := "config/fonts/Juventus-Fans-Bold.ttf".

Definition overlay_content (overlay_settings : yval) (values : overlay_cfg) : res yval :=
  ho <-? pyget overlay_settings "horizontal_offset" (YInt 0) ;;
  ha <-? pyget overlay_settings "horizontal_align" (YStr "center") ;;
  vo <-? pyget overlay_settings "vertical_offset" (YInt 0) ;;
  va <-? pyget overlay_settings "vertical_align" (YStr "top") ;;
  fs <-? pyget overlay_settings "font_size" (YInt 75) ;;
  bw <-? pyget overlay_settings "back_width" (YInt 1920) ;;
  bh <-? pyget overlay_settings "back_height" (YInt 125) ;;
  bc <-? pyget overlay_settings "back_color" (YStr "#262626") ;;
  Ret (YMap [("overlays", YMap [(oc_overlay_name values, YMap [
        ("builder_level", YStr "episode");
        ("overlay", YMap [("name", YStr ("text(" ++ oc_name values ++ ")"));
                          ("horizontal_offset", ho); ("horizontal_align", ha);
                          ("vertical_offset", vo); ("vertical_align", va);
                          ("font_size", fs); ("font", YStr font_path);
                          ("back_width", bw); ("back_height", bh);
                          ("back_color", bc)]);
        ("plex_search", YMap [("all", YMap [("episode_label", YStr (oc_label values))])])])])]).

(** The loop over [overlay_configs.items()], threading [success]. *)
Fixpoint emit_overlays (E : env) (yaml_output_dir : string) (overlay_settings : yval)
  (ocs : list overlay_cfg) (success : bool) : M bool :=
  match ocs with
  | [] => ret success
  | values :: ocs' =>
      let overlay_file := join yaml_output_dir (oc_file values) in
      ex <- exists_m overlay_file ;;
      if ex then emit_overlays E yaml_output_dir overlay_settings ocs' success
      else
        overlay_content' <- lift (overlay_content overlay_settings values) ;;
        ok <- try_ (write_file E overlay_file (FYaml overlay_content') ;;; ret true)
                   (fun _ => ret false) ;;
        emit_overlays E yaml_output_dir overlay_settings ocs' (success && ok)
  end.

Definition create_anime_overlay_files (E : env) (config : yval) : M bool :=
  paths <- lift (get_kometa_paths config) ;;
  s <- lift (pyget config "services" (YMap [])) ;;
  a <- lift (pyget s "anime_episode_type" (YMap [])) ;;
  overlay_settings <- lift (pyget a "overlay" (YMap [])) ;;
  yaml_output_dir <- lift (py_path (fst paths)) ;;
  ok <- ensure_directory E yaml_output_dir ;;
  if negb ok then ret false
  else emit_overlays E yaml_output_dir overlay_settings overlay_configs true.

(** ** [sync_anime_episode_collections] *)

Definition sync_anime_episode_collections (E : env) (config : yval) (force_update : bool)
  : M bool :=
  paths <- lift (get_kometa_paths config) ;;
  collections_dir <- lift (py_path (snd paths)) ;;
  ok <- ensure_directory E collections_dir ;;
  if negb ok then ret false else
  fetched <- lift (fetch_lists E config) ;;
  match fetched with
  | None => ret false
  | Some collections_data =>
      let collections_file := join collections_dir collections_file_name in
      existing_collections <- read_existing E collections_file ;;
      changes_detected <- lift (if force_update then Ret true
                                else detect_changes existing_collections collections_data) ;;
      if changes_detected then
        new_collections <- lift (build_new_collections existing_collections collections_data) ;;
        try_ (write_file E collections_file (FYaml new_collections) ;;;
              _ <- create_anime_overlay_files E config ;;
              ret true)
             (fun _ => ret false)
      else ret true
  end.

Definition update_anime_episode_collections (E : env) (config : yval) : M bool :=
  sync_anime_episode_collections E config true.

(** Where a configuration puts the collections file. *)
Definition collections_path (config : yval) : res string :=
  paths <-? get_kometa_paths config ;;
  cd <-? py_path (snd paths) ;;
  Ret (join cd collections_file_name).

(** ** Asset provisioning *)

Definition poster_source : string := "/app/assets/next_airing_poster.jpg".
Definition font_source : string := "/app/fonts/Juventus-Fans-Bold.ttf".

(** The file [shutil.copy2(src, dst)] writes: [dst/basename(src)] when [dst]
    is a directory, [dst] otherwise. *)
Definition copy_target (w : world) (src dst : string) : string :=
  if isdir w dst then join dst (basename src) else dst.

(** [shutil.copy2(src, dst)]: [SameFileError] when the target is the source
    itself (paths compared as written, without links), an error when the
    source is not a file or the target is a directory; otherwise the target
    is opened for writing and receives the source's content. *)
Definition copy2 (E : env) (src dst : string) : M unit :=
  fun w =>
    let target := copy_target w src dst in
    if String.eqb src target then mkOut (Exc OSError) w [] else
    match lookup_file w src with
    | Some c => if isdir w target then mkOut (Exc OSError) w []
                else write_file E target c w
    | None => mkOut (Exc OSError) w []
    end.

(** [copy_asset(source, destination)] *)
Definition copy_asset (E : env) (source destination : string) : M bool :=
  try_ (ok <- ensure_directory E (dirname destination) ;;
        if negb ok then ret false else
        copy2 E source destination ;;;
        ret true)
       (fun _ => ret false).

Definition setup_collection_posters (E : env) (config : yval) : M bool :=
  paths <- lift (get_kometa_paths config) ;;
  collections_dir <- lift (py_path (snd paths)) ;;
  let kometa_config := dirname collections_dir in
  let assets_dir := join (join kometa_config "assets") "Next Airing" in
  ok <- ensure_directory E assets_dir ;;
  if negb ok then ret false else
  let poster_dest := join assets_dir "poster.jpg" in
  ex <- exists_m poster_source ;;
  if ex then copy_asset E poster_source poster_dest
  else ret false.   (* logger.warning(...); return False *)

(** [config['services']['tv_status_tracker']['font_path'] = v] *)
Definition set_font_path (config : yval) (v : yval) : res yval :=
  sv <-? py_getitem config "services" ;;
  t <-? py_getitem sv "tv_status_tracker" ;;
  t' <-? py_setitem t "font_path" v ;;
  sv' <-? py_setitem sv "tv_status_tracker" t' ;;
  py_setitem config "services" sv'.

Definition has_tv_status_tracker (config : yval) : res bool :=
  b1 <-? py_contains config "services" ;;
  if b1 then
    sv <-? py_getitem config "services" ;;
    py_contains sv "tv_status_tracker"
  else Ret false.

(** [setup_fonts(config)]; it mutates [config], so the updated configuration
    is returned along with the result. *)
Definition setup_fonts (E : env) (config : yval) : M (bool * yval) :=
  has <- lift (has_tv_status_tracker config) ;;
  kometa_config <- lift (if has then
                           sv <-? py_getitem config "services" ;;
                           t <-? py_getitem sv "tv_status_tracker" ;;
                           cd <-? pyget t "collections_dir" (YStr "/kometa/config/collections") ;;
                           cds <-? py_path cd ;;
                           Ret (dirname cds)
                         else Ret "/kometa/config") ;;
  let fonts_dir := join kometa_config "fonts" in
  ok <- ensure_directory E fonts_dir ;;
  if negb ok then ret (false, config) else
  let font_dest := join fonts_dir "Juventus-Fans-Bold.ttf" in
  ex <- exists_m font_source ;;
  if ex then
    copied <- copy_asset E font_source font_dest ;;
    if copied then
      has' <- lift (has_tv_status_tracker config) ;;
      config' <- lift (if has' then set_font_path config (YStr font_dest) else Ret config) ;;
      ret (true, config')
    else ret (false, config)
  else ret (false, config).

Definition setup_assets (E : env) (config : yval) : M bool :=
  poster_result <- setup_collection_posters E config ;;
  fr <- setup_fonts E config ;;
  let config := snd fr in
  s <- lift (pyget config "services" (YMap [])) ;;
  a <- lift (pyget s "anime_episode_type" (YMap [])) ;;
  enabled <- lift (pyget a "enabled" (YBool false)) ;;
  if truthy enabled then
    collections_result <- update_anime_episode_collections E config ;;
    overlays_result <- create_anime_overlay_files E config ;;
    ret true
  else ret true.

(** ** Sequences of calls *)

Inductive call : Type :=
| CallEmit (config : yval)
| CallSync (config : yval) (force_update : bool).

Fixpoint run_calls (E : env) (cs : list call) (w : world) : world :=
  match cs with
  | [] => w
  | CallEmit config :: cs' => run_calls E cs' (out_world (create_anime_overlay_files E config w))
  | CallSync config f :: cs' =>
      run_calls E cs' (out_world (sync_anime_episode_collections E config f w))
  end.

(** ** Observations on runs *)

(** A property of worlds kept by a run. *)
Definition Inv (P : world -> Prop) {A} (m : M A) : Prop :=
  forall w, P w -> P (out_world (m w)).

(** A property of the values a run returns. *)
Definition Post {A} (Q : A -> Prop) (m : M A) : Prop :=
  forall w a, out_res (m w) = Ret a -> Q a.

(** A file present in the world. *)
Definition FileIs (q : string) (c : fcontent) (w : world) : Prop := lookup_file w q = Some c.

(** The entry of a category in a collections document. *)
Definition coll_entry (v : yval) (n : string) : option yval :=
  match v with
  | YMap top =>
      match assoc "collections" top with
      | Some (YMap cm) => assoc n cm
      | _ => None
      end
  | _ => None
  end.

(** The first YAML document a log writes at [p]. *)
Fixpoint written_doc (p : string) (log : list (string * fcontent)) : option yval :=
  match log with
  | [] => None
  | (q, FYaml v) :: log' => if String.eqb q p then Some v else written_doc p log'
  | _ :: log' => written_doc p log'
  end.

(** The classification as the spec words it: for a category, the URL of each
    remote list of that category, in the order of the remote result. *)
Definition classify_spec_urls (user : string) (recs : list yval) (cat : string)
  : list string :=
  flat_map (fun r => match classify_one user r with
                     | Ret (Some (c, u)) => if String.eqb c cat then [u] else []
                     | _ => []
                     end) recs.

(** ** Concrete scenarios *)

Definition alice_config : yval := YMap [("trakt", YMap [("username", YStr "alice")])].

Definition alice_enabled_config : yval :=
  YMap [("trakt", YMap [("username", YStr "alice")]);
        ("services", YMap [("anime_episode_type", YMap [("enabled", YBool true)])])].

Definition naruto_lists : yval :=
  YList [YMap [("name", YStr "Naruto_filler"); ("ids", YMap [("slug", YStr "naruto-filler")])];
         YMap [("name", YStr "Naruto_Manga Canon");
               ("ids", YMap [("slug", YStr "naruto-manga-canon")])]].

(** The same remote list reported twice. *)
Definition repeated_lists : yval :=
  YList [YMap [("name", YStr "Naruto_filler"); ("ids", YMap [("slug", YStr "naruto-filler")])];
         YMap [("name", YStr "Naruto_filler"); ("ids", YMap [("slug", YStr "naruto-filler")])]].

Definition env_with (h : http_out) : env :=
  mkEnv (fun _ => true) (fun _ => true) (fun _ => true) AuthTok h.

Definition naruto_env : env := env_with (HttpResp 200 (Some naruto_lists)).

Definition empty_world : world := mkWorld [] [].

Definition default_collections_file : string :=
  "/kometa/config/collections/anime_episode_type.yml".

Definition world_with_collections (v : yval) : world :=
  mkWorld [(default_collections_file, FYaml v)] [].

(** A prior file whose only entry is a category of the user's own. *)
Definition custom_prior : yval :=
  YMap [("collections", YMap [("Custom", YMap [("sync_mode", YStr "append");
                                                ("trakt_list", YList [])])])].



(** An overlay file the user wrote. *)
Definition custom_overlay_world : world :=
  mkWorld [("/kometa/config/overlays/fillers.yml", FRaw "my own overlay")] [].

(** * Proofs *)

(** ** Strings and paths *)

Lemma str_app_assoc : forall a b c : string, (a ++ b) ++ c = a ++ (b ++ c).
Proof. induction a; intros; simpl; [reflexivity | now rewrite IHa]. Qed.

Lemma str_length_app : forall a b : string,
  String.length (a ++ b) = String.length a + String.length b.
Proof. induction a; intros; simpl; [reflexivity | now rewrite IHa]. Qed.

Lemma str_app_tail : forall s1 s2 t1 t2 : string,
  String.length t1 = String.length t2 -> s1 ++ t1 = s2 ++ t2 -> t1 = t2.
Proof.
  intros s1 s2 t1 t2 Hl Heq.
  assert (Hs : String.length s1 = String.length s2).
  { apply (f_equal String.length) in Heq. rewrite !str_length_app in Heq. lia. }
  revert s2 Hs Heq. induction s1 as [|c s1 IH]; intros [|c' s2] Hs Heq;
    simpl in *; try discriminate; auto.
  injection Heq as _ Heq. injection Hs as Hs. exact (IH s2 Hs Heq).
Qed.

Lemma join_suffix : forall a b, is_prefix "/" b = false -> exists x, join a b = x ++ b.
Proof.
  intros a b H. unfold join. rewrite H.
  destruct (String.eqb a "" || ends_with_slash a).
  - now exists a.
  - exists (a ++ "/"). now rewrite str_app_assoc.
Qed.

(** Two strings whose last characters differ are different. *)
Lemma str_tails_neq : forall x y u1 t1 u2 t2 : string,
  String.length t1 = String.length t2 -> t1 <> t2 ->
  x ++ (u1 ++ t1) <> y ++ (u2 ++ t2).
Proof.
  intros x y u1 t1 u2 t2 Hl Hn Heq. rewrite <- !str_app_assoc in Heq.
  apply Hn. eapply str_app_tail; eauto.
Qed.

Lemma join_neq : forall a b n1 n2 u1 t1 u2 t2,
  is_prefix "/" n1 = false -> is_prefix "/" n2 = false ->
  n1 = u1 ++ t1 -> n2 = u2 ++ t2 ->
  String.length t1 = String.length t2 -> t1 <> t2 ->
  join a n1 <> join b n2.
Proof.
  intros a b n1 n2 u1 t1 u2 t2 H1 H2 E1 E2 Hl Hn.
  destruct (join_suffix a n1 H1) as [x Hx]. destruct (join_suffix b n2 H2) as [y Hy].
  rewrite Hx, Hy, E1, E2. now apply str_tails_neq.
Qed.

(** The collections file is never one of the overlay files. *)
Lemma collections_file_not_overlay : forall a b fn,
  In fn overlay_file_names -> join a collections_file_name <> join b fn.
Proof.
  intros a b fn Hin.
  simpl in Hin; destruct Hin as [<-|[<-|[<-|[<-|[]]]]].
  - apply (join_neq a b _ _ "anime_episode_typ" "e.yml" "filler" "s.yml");
      try reflexivity; discriminate.
  - apply (join_neq a b _ _ "anime_episode_typ" "e.yml" "manga_cano" "n.yml");
      try reflexivity; discriminate.
  - apply (join_neq a b _ _ "anime_episode_typ" "e.yml" "anime_cano" "n.yml");
      try reflexivity; discriminate.
  - apply (join_neq a b _ _ "anime_episode_typ" "e.yml" "mixe" "d.yml");
      try reflexivity; discriminate.
Qed.

(** ** World invariants of the monadic code *)

Section Invariants.

Variable P : world -> Prop.

Lemma Inv_ret {A} (a : A) : Inv P (ret a).
Proof. intros w Hw; exact Hw. Qed.

Lemma Inv_lift {A} (r : res A) : Inv P (lift r).
Proof. intros w Hw; exact Hw. Qed.

Lemma Inv_throw {A} (e : exn) : Inv P (A := A) (throw e).
Proof. intros w Hw; exact Hw. Qed.

Lemma Inv_exists_m p : Inv P (exists_m p).
Proof. intros w Hw; exact Hw. Qed.

Lemma Inv_read_existing E p : Inv P (read_existing E p).
Proof. intros w Hw; exact Hw. Qed.

Lemma Inv_bind {A B} (m : M A) (k : A -> M B) :
  Inv P m -> (forall a, Inv P (k a)) -> Inv P (bind m k).
Proof.
  intros Hm Hk w Hw. unfold bind. specialize (Hm w Hw).
  destruct (m w) as [[a|e] w1 l1]; simpl in *; [|exact Hm].
  exact (Hk a w1 Hm).
Qed.

Lemma Inv_try {A} (m : M A) (h : exn -> M A) :
  Inv P m -> (forall e, Inv P (h e)) -> Inv P (try_ m h).
Proof.
  intros Hm Hh w Hw. unfold try_. specialize (Hm w Hw).
  destruct (m w) as [[a|e] w1 l1]; simpl in *; [exact Hm|].
  exact (Hh e w1 Hm).
Qed.

Hypothesis P_add_dir : forall w d, P w -> P (add_dir w d).

Lemma Inv_ensure E d : Inv P (ensure_directory E d).
Proof.
  intros w Hw. unfold ensure_directory.
  destruct (exists_ w d); [exact Hw|]. destruct (mkdir_ok E d); simpl; auto.
Qed.

Lemma Inv_write E p c : (forall w, P w -> P (set_file w p c)) -> Inv P (write_file E p c).
Proof. intros H w Hw. unfold write_file. destruct (write_ok E p); simpl; auto. Qed.

(** An [os.path.exists] guard: the [else] branch runs only where [p] is absent. *)
Lemma Inv_bind_exists {A} p (m1 m2 : M A) :
  Inv P m1 -> (forall w, P w -> exists_ w p = false -> P (out_world (m2 w))) ->
  Inv P (ex <- exists_m p ;; if ex then m1 else m2).
Proof.
  intros H1 H2 w Hw. unfold bind, exists_m.
  destruct (exists_ w p) eqn:E.
  - exact (H1 w Hw).
  - exact (H2 w Hw E).
Qed.

End Invariants.

Ltac inv_step :=
  match goal with
  | |- Inv _ (bind (exists_m _) (fun ex => if ex then _ else _)) => fail
  | |- Inv _ (bind _ _) => apply Inv_bind; [ | intro ]
  | |- Inv _ (try_ _ _) => apply Inv_try; [ | intro ]
  | |- Inv _ (ret _) => apply Inv_ret
  | |- Inv _ (lift _) => apply Inv_lift
  | |- Inv _ (throw _) => apply Inv_throw
  | |- Inv _ (exists_m _) => apply Inv_exists_m
  | |- Inv _ (read_existing _ _) => apply Inv_read_existing
  | |- Inv _ (match ?x with _ => _ end) => destruct x
  | |- Inv _ (if ?x then _ else _) => destruct x
  end.

Ltac inv_tac := repeat inv_step.

Lemma FileIs_add_dir q c : forall w d, FileIs q c w -> FileIs q c (add_dir w d).
Proof. intros w d H; exact H. Qed.

Lemma FileIs_set_file q c p c' w :
  p <> q -> FileIs q c w -> FileIs q c (set_file w p c').
Proof.
  intros Hne H. unfold FileIs, lookup_file in *; simpl.
  destruct (String.eqb q p) eqn:E; [apply String.eqb_eq in E; congruence | exact H].
Qed.

Lemma FileIs_exists q c w : FileIs q c w -> exists_ w q = true.
Proof. unfold FileIs, exists_. intros H; now rewrite H. Qed.

(** The overlay loop writes only where no file or directory exists, so every
    existing file keeps its content. *)
Lemma emit_overlays_keeps_files E q c yod os :
  forall ocs success, Inv (FileIs q c) (emit_overlays E yod os ocs success).
Proof.
  induction ocs as [|oc ocs IH]; intros success; simpl.
  - apply Inv_ret.
  - apply Inv_bind_exists; [apply IH|].
    intros w Hw Hex.
    assert (Hne : join yod (oc_file oc) <> q).
    { intros Heq. pose proof (FileIs_exists _ _ _ Hw) as Hq. rewrite <- Heq in Hq. congruence. }
    clear Hex. revert w Hw. change (Inv (FileIs q c)
      (overlay_content' <- lift (overlay_content os oc) ;;
       ok <- try_ (write_file E (join yod (oc_file oc)) (FYaml overlay_content') ;;; ret true)
                  (fun _ => ret false) ;;
       emit_overlays E yod os ocs (success && ok))).
    inv_tac; try apply IH. apply Inv_write. intros w Hw. now apply FileIs_set_file.
Qed.

Lemma create_overlays_keeps_files E config q c :
  Inv (FileIs q c) (create_anime_overlay_files E config).
Proof.
  unfold create_anime_overlay_files. inv_tac.
  - apply Inv_ensure, FileIs_add_dir.
  - apply emit_overlays_keeps_files.
Qed.

(** A sync writes the collections file and, through the emitter, absent files
    only: an overlay file that exists keeps its content. *)
Lemma sync_keeps_overlay_file E config f d fn c :
  In fn overlay_file_names ->
  Inv (FileIs (join d fn) c) (sync_anime_episode_collections E config f).
Proof.
  intros Hfn. unfold sync_anime_episode_collections. inv_tac.
  all: first [ apply Inv_ensure, FileIs_add_dir
             | apply create_overlays_keeps_files
             | apply Inv_write; intros w Hw; apply FileIs_set_file;
               [apply collections_file_not_overlay; exact Hfn | exact Hw] ].
Qed.

(** ** What the writes of a run are *)

Ltac simp H :=
  cbn -[emit_overlays create_anime_overlay_files existing_of detect_changes
        build_new_collections fetch_lists get_kometa_paths join py_path] in H.

Ltac destr_in H :=
  repeat (simp H;
          match type of H with
          | context [match ?x with _ => _ end] =>
              lazymatch x with
              | context [match _ with _ => _ end] => fail
              | _ => destruct x eqn:?
              end
          end); simp H.

Lemma emit_overlays_log E yod os : forall ocs success w q c,
  In (q, c) (out_log (emit_overlays E yod os ocs success w)) ->
  exists fn, In fn (map oc_file ocs) /\ q = join yod fn.
Proof.
  induction ocs as [|oc ocs IH]; intros success w q c H; simpl in H.
  - contradiction.
  - unfold bind, exists_m in H. simpl in H.
    destruct (exists_ w (join yod (oc_file oc))).
    + destruct (IH _ _ _ _ H) as [fn [Hin ->]]. exists fn; simpl; auto.
    + unfold lift, try_, write_file, ret in H. destr_in H.
      all: repeat (rewrite in_app_iff in H; simpl in H).
      all: repeat match type of H with
             | _ \/ _ => destruct H as [H|H]
             end.
      all: first [ contradiction
                 | match type of H with
                   | (_, _) = (_, _) => injection H as <- _; exists (oc_file oc); simpl; auto
                   end
                 | destruct (IH _ _ _ _ H) as [fn [Hin ->]]; exists fn; simpl; auto ].
Qed.

Lemma create_overlays_log E config w q c :
  In (q, c) (out_log (create_anime_overlay_files E config w)) ->
  exists d fn, In fn overlay_file_names /\ q = join d fn.
Proof.
  intros H. unfold create_anime_overlay_files, bind, lift, ret, ensure_directory in H.
  destr_in H.
  all: repeat (rewrite in_app_iff in H; simpl in H).
  all: repeat match type of H with _ \/ _ => destruct H as [H|H] end.
  all: first [ contradiction
             | destruct (emit_overlays_log _ _ _ _ _ _ _ _ H) as [fn [Hin ->]];
               eexists _, fn; split; [exact Hin | reflexivity] ].
Qed.

Lemma existing_of_add_dir E w d p : existing_of E (add_dir w d) p = existing_of E w p.
Proof.
  unfold existing_of, exists_, lookup_file; simpl.
  destruct (assoc p (files w)) as [[v|s]|]; try reflexivity.
  destruct (String.eqb p d || existsb (String.eqb p) (dirs w)),
           (existsb (String.eqb p) (dirs w)); reflexivity.
Qed.

Lemma FileIs_set_same q c w : FileIs q c (set_file w q c).
Proof. unfold FileIs, lookup_file; simpl. now rewrite String.eqb_refl. Qed.

(** ** Rewriting runs step by step *)

Lemma bind_lift_Ret {A B} (a : A) (k : A -> M B) w : bind (lift (Ret a)) k w = k a w.
Proof. unfold bind, lift; simpl. destruct (k a w); reflexivity. Qed.

Lemma bind_lift_Exc {A B} e (k : A -> M B) w : bind (lift (Exc e)) k w = mkOut (Exc e) w [].
Proof. reflexivity. Qed.

Lemma bind_ret {A B} (a : A) (k : A -> M B) w : bind (ret a) k w = k a w.
Proof. unfold bind, ret; simpl. destruct (k a w); reflexivity. Qed.

Lemma bind_exists_m {B} p (k : bool -> M B) w : bind (exists_m p) k w = k (exists_ w p) w.
Proof. unfold bind, exists_m; simpl. destruct (k _ w); reflexivity. Qed.

Lemma bind_read_existing {B} E p (k : yval -> M B) w :
  bind (read_existing E p) k w = k (existing_of E w p) w.
Proof. unfold bind, read_existing; simpl. destruct (k _ w); reflexivity. Qed.

Lemma bind_ensure {B} E d (k : bool -> M B) w :
  bind (ensure_directory E d) k w =
  if exists_ w d then k true w else if mkdir_ok E d then k true (add_dir w d) else k false w.
Proof.
  unfold bind, ensure_directory.
  destruct (exists_ w d); [|destruct (mkdir_ok E d)]; simpl;
    match goal with |- context [k ?b ?w'] => destruct (k b w'); reflexivity end.
Qed.

Ltac mstep :=
  repeat (rewrite ?bind_lift_Ret, ?bind_lift_Exc, ?bind_ret, ?bind_exists_m,
            ?bind_read_existing, ?bind_ensure in *; cbv beta iota in *).

(** Every write of a sync is the collections file, built from the prior file
    and the fresh classification, or an overlay file. *)
Lemma sync_log_cases E config f w q c :
  In (q, c) (out_log (sync_anime_episode_collections E config f w)) ->
  exists paths cd d,
    get_kometa_paths config = Ret paths /\ py_path (snd paths) = Ret cd /\
    (exists_ w cd = true \/ mkdir_ok E cd = true) /\
    fetch_lists E config = Ret (Some d) /\
    ( (q = join cd collections_file_name /\
       (exists v, c = FYaml v /\ build_new_collections (existing_of E w q) d = Ret v) /\
       (f = false -> detect_changes (existing_of E w q) d = Ret true) /\
       FileIs q c (out_world (sync_anime_episode_collections E config f w)))
    \/ (exists d' fn, In fn overlay_file_names /\ q = join d' fn)).
Proof.
  intros H. unfold sync_anime_episode_collections in *.
  destruct (get_kometa_paths config) as [paths|e] eqn:Hg; mstep; [|contradiction].
  destruct (py_path (snd paths)) as [cd|e] eqn:Hc; mstep; [|contradiction].
  exists paths, cd.
  destruct (exists_ w cd) eqn:Hex; [|destruct (mkdir_ok E cd) eqn:Hmk]; cbn [negb] in *;
    mstep; try (simpl in H; contradiction).
  all: destruct (fetch_lists E config) as [[d|]|e] eqn:Hf; mstep; try (simpl in H; contradiction).
  all: exists d; split; [first [eassumption|reflexivity]|]; split; [first [eassumption|reflexivity]|];
       split; [auto|]; split; [first [eassumption|reflexivity]|].
  all: try rewrite existing_of_add_dir in *.
  all: destruct f; [|destruct (detect_changes _ d) as [[|]|e] eqn:Hd]; mstep;
       try (simpl in H; contradiction).
  all: destruct (build_new_collections _ d) as [v|e] eqn:Hb; mstep; try (simpl in H; contradiction).
  all: unfold try_, bind, write_file in *.
  all: destruct (write_ok E (join cd collections_file_name)) eqn:Hwr; cbn -[create_anime_overlay_files join] in *;
       try contradiction.
  all: match type of H with context [create_anime_overlay_files ?E0 ?c0 ?w0] =>
         destruct (create_anime_overlay_files E0 c0 w0) as [[r|e] w2 l2] eqn:Hco end;
       cbn -[create_anime_overlay_files join] in *.
  all: destruct H as [H|H].
  all: try (right; rewrite app_nil_r in H; apply (f_equal out_log) in Hco; cbn [out_log] in Hco;
            rewrite <- Hco in H; exact (create_overlays_log _ _ _ _ _ H)).
  all: left; injection H as <- <-; split; [reflexivity|].
  all: split; [eexists; split; [reflexivity | exact Hb]|].
  all: split; [intros Hf'; first [discriminate | exact Hd]|].
  all: apply (f_equal out_world) in Hco; cbn [out_world] in Hco; rewrite <- Hco;
       apply create_overlays_keeps_files, FileIs_set_same.
Qed.

(** ** The rebuilt collections document *)

Lemma assoc_dict_set {A} (l : list (string * A)) k v n :
  assoc n (dict_set l k v) = if String.eqb n k then Some v else assoc n l.
Proof.
  induction l as [|[k' v'] l IH]; simpl.
  - destruct (String.eqb n k); reflexivity.
  - destruct (String.eqb k k') eqn:E1; simpl.
    + apply String.eqb_eq in E1; subst k'. destruct (String.eqb n k); reflexivity.
    + destruct (String.eqb n k') eqn:E2; try rewrite IH.
      * apply String.eqb_eq in E2; subst k'.
        destruct (String.eqb n k) eqn:E3; [|reflexivity].
        apply String.eqb_eq in E3; subst. now rewrite String.eqb_refl in E1.
      * reflexivity.
Qed.

Lemma keys_dict_set_new {A} (l : list (string * A)) k v :
  ~ In k (map fst l) -> map fst (dict_set l k v) = (map fst l ++ [k])%list.
Proof.
  induction l as [|[k' v'] l IH]; simpl; intros Hn; [reflexivity|].
  destruct (String.eqb k k') eqn:E.
  - apply String.eqb_eq in E; subst. exfalso; auto.
  - simpl. rewrite IH; auto.
Qed.


Lemma build_entries_keys existing : forall d acc entries,
  build_entries existing d acc = Ret entries ->
  NoDup (map fst d) ->
  (forall k, In k (map fst d) -> ~ In k (map fst acc)) ->
  map fst entries = (map fst acc ++ map fst d)%list.
Proof.
  induction d as [|[k u] d IH]; simpl; intros acc entries H Hnd Hdis.
  - injection H as <-. now rewrite app_nil_r.
  - destruct (new_settings existing k u) as [s|e] eqn:Es; simpl in H; [|discriminate].
    inversion Hnd as [|? ? Hk Hnd']; subst.
    rewrite (IH _ _ H Hnd').
    + rewrite keys_dict_set_new by (apply Hdis; auto). now rewrite <- app_assoc.
    + intros k' Hk'. rewrite keys_dict_set_new by (apply Hdis; auto).
      rewrite in_app_iff. intros [H1|[H1|[]]].
      * exact (Hdis k' (or_intror Hk') H1).
      * subst. contradiction.
Qed.

Lemma build_entries_other existing : forall d acc entries n,
  build_entries existing d acc = Ret entries -> ~ In n (map fst d) ->
  assoc n entries = assoc n acc.
Proof.
  induction d as [|[k u] d IH]; simpl; intros acc entries n H Hn.
  - now injection H as <-.
  - destruct (new_settings existing k u) as [s|e]; simpl in H; [|discriminate].
    rewrite (IH _ _ _ H) by auto. rewrite assoc_dict_set.
    destruct (String.eqb n k) eqn:E; [|reflexivity].
    apply String.eqb_eq in E; subst. exfalso; auto.
Qed.

Lemma build_entries_assoc existing : forall d acc entries n urls s,
  build_entries existing d acc = Ret entries -> NoDup (map fst d) ->
  assoc n d = Some urls -> new_settings existing n urls = Ret s ->
  assoc n entries = Some s.
Proof.
  induction d as [|[k u] d IH]; simpl; intros acc entries n urls s H Hnd Hn Hs;
    [discriminate|].
  inversion Hnd as [|? ? Hk Hnd']; subst.
  destruct (new_settings existing k u) as [s'|e] eqn:Es; simpl in H; [|discriminate].
  destruct (String.eqb n k) eqn:E.
  - apply String.eqb_eq in E; subst. injection Hn as <-. rewrite Es in Hs. injection Hs as <-.
    rewrite (build_entries_other _ _ _ _ _ H Hk), assoc_dict_set, String.eqb_refl.
    reflexivity.
  - exact (IH _ _ _ _ _ H Hnd' Hn Hs).
Qed.

Lemma cd_append_keys : forall d c u, map fst (cd_append d c u) = map fst d.
Proof.
  induction d as [|[k us] d IH]; intros c u; simpl; [reflexivity|].
  destruct (String.eqb c k); simpl; [reflexivity | now rewrite IH].
Qed.

Lemma classify_loop_keys user : forall ls d d',
  classify_loop user ls d = Ret d' -> map fst d' = map fst d.
Proof.
  induction ls as [|l ls IH]; simpl; intros d d' H.
  - now injection H as <-.
  - destruct (classify_one user l) as [[[c u]|]|e]; simpl in H; try discriminate.
    + rewrite (IH _ _ H). apply cd_append_keys.
    + exact (IH _ _ H).
Qed.

Lemma fetch_lists_keys E config d :
  fetch_lists E config = Ret (Some d) -> map fst d = category_names.
Proof.
  unfold fetch_lists. intros H.
  destruct (pyget config "trakt" (YMap [])) as [tr|]; simpl in H; try discriminate.
  destruct (pyget tr "username" YNull) as [u|]; simpl in H; try discriminate.
  destruct (negb (truthy u)); try discriminate.
  destruct (auth E); try discriminate.
  destruct (http E) as [|st [b|]]; try discriminate;
    destruct (negb (Z.eqb st 200)); try discriminate.
  unfold classify in H.
  destruct (py_iter b) as [ls|]; simpl in H; try discriminate.
  destruct (classify_loop _ ls empty_collections_data) as [d'|] eqn:Ec; simpl in H;
    try discriminate.
  injection H as <-. rewrite (classify_loop_keys _ _ _ _ Ec). reflexivity.
Qed.

Lemma category_names_NoDup : NoDup category_names.
Proof.
  unfold category_names.
  repeat (apply NoDup_cons; [simpl; intuition discriminate|]). apply NoDup_nil.
Qed.

Lemma build_new_shape existing d v :
  build_new_collections existing d = Ret v -> NoDup (map fst d) ->
  exists entries, v = YMap [("collections", YMap entries)] /\ map fst entries = map fst d.
Proof.
  unfold build_new_collections. intros H Hnd.
  destruct (build_entries existing d []) as [entries|] eqn:Eb; simpl in H; [|discriminate].
  injection H as <-. exists entries. split; [reflexivity|].
  exact (build_entries_keys _ _ _ _ Eb Hnd (fun _ _ H => H)).
Qed.

Lemma collections_path_eq config paths cd p :
  get_kometa_paths config = Ret paths -> py_path (snd paths) = Ret cd ->
  collections_path config = Ret p -> p = join cd collections_file_name.
Proof.
  unfold collections_path. intros H1 H2 H3. rewrite H1 in H3; simpl in H3.
  rewrite H2 in H3; simpl in H3. congruence.
Qed.

(** The collections write of a sync, singled out among the writes. *)
Lemma sync_collections_write E config f w p c :
  collections_path config = Ret p ->
  In (p, c) (out_log (sync_anime_episode_collections E config f w)) ->
  exists paths cd d v,
    get_kometa_paths config = Ret paths /\ py_path (snd paths) = Ret cd /\
    p = join cd collections_file_name /\
    fetch_lists E config = Ret (Some d) /\
    (exists_ w cd = true \/ mkdir_ok E cd = true) /\
    c = FYaml v /\ build_new_collections (existing_of E w p) d = Ret v /\
    (f = false -> detect_changes (existing_of E w p) d = Ret true) /\
    FileIs p c (out_world (sync_anime_episode_collections E config f w)).
Proof.
  intros Hp H.
  destruct (sync_log_cases _ _ _ _ _ _ H)
    as (paths & cd & d & Hg & Hc & Hex & Hf & [(Hq & (v & -> & Hb) & Hdet & Hfile)
                                               | (d' & fn & Hfn & Hq)]).
  - exists paths, cd, d, v. repeat split; auto.
  - exfalso. rewrite (collections_path_eq _ _ _ _ Hg Hc Hp) in Hq.
    exact (collections_file_not_overlay _ _ _ Hfn Hq).
Qed.

(** ** Runs that only add files and directories *)

Section Growing.

Variable P : world -> Prop.
Hypothesis P_add_dir : forall w d, P w -> P (add_dir w d).
Hypothesis P_set_file : forall w p c, P w -> P (set_file w p c).

Lemma emit_overlays_grows E yod os : forall ocs success, Inv P (emit_overlays E yod os ocs success).
Proof.
  induction ocs as [|oc ocs IH]; intros success; simpl; [apply Inv_ret|].
  apply Inv_bind_exists; [apply IH|]. intros w Hw _. revert w Hw.
  change (Inv P
      (overlay_content' <- lift (overlay_content os oc) ;;
       ok <- try_ (write_file E (join yod (oc_file oc)) (FYaml overlay_content') ;;; ret true)
                  (fun _ => ret false) ;;
       emit_overlays E yod os ocs (success && ok))).
  inv_tac; try apply IH. apply Inv_write; auto.
Qed.

Lemma create_overlays_grows E config : Inv P (create_anime_overlay_files E config).
Proof.
  unfold create_anime_overlay_files. inv_tac.
  - apply Inv_ensure; auto.
  - apply emit_overlays_grows.
Qed.

Lemma sync_grows E config f : Inv P (sync_anime_episode_collections E config f).
Proof.
  unfold sync_anime_episode_collections. inv_tac.
  all: first [ apply Inv_ensure; auto | apply create_overlays_grows | apply Inv_write; auto ].
Qed.

End Growing.

Lemma exists_grows_add_dir x : forall w d, exists_ w x = true -> exists_ (add_dir w d) x = true.
Proof.
  unfold exists_, lookup_file; simpl. intros w d.
  destruct (assoc x (files w)); [auto|]. intros H; now rewrite H, orb_true_r.
Qed.

Lemma exists_grows_set_file x : forall w p c, exists_ w x = true -> exists_ (set_file w p c) x = true.
Proof.
  unfold exists_, lookup_file; simpl. intros w p c.
  destruct (String.eqb x p); [auto|]. auto.
Qed.

(** ** Change detection *)

Lemma set_eqb_refl a : set_eqb a a = true.
Proof.
  unfold set_eqb, subset_b. rewrite andb_diag. apply forallb_forall.
  intros x Hx. apply existsb_exists. exists x. split; [exact Hx|].
  destruct x; simpl; [apply String.eqb_refl | apply Z.eqb_refl | reflexivity].
Qed.

Lemma py_set_urls urls : py_set (YList (map YStr urls)) = Ret (map AStr urls).
Proof. unfold py_set; simpl. induction urls as [|u urls IH]; simpl; [reflexivity|]. now rewrite IH. Qed.

Lemma new_settings_trakt_list existing n urls s :
  new_settings existing n urls = Ret s ->
  pyget s "trakt_list" (YList []) = Ret (YList (map YStr urls)).
Proof.
  unfold new_settings. intros H.
  destruct (if truthy existing then _ else _) as [[|]|]; simpl in H; try discriminate.
  - destruct (py_getitem existing "collections") as [cs|]; simpl in H; try discriminate.
    destruct (py_getitem cs n) as [e|]; simpl in H; try discriminate.
    destruct (py_copy e) as [s0|]; simpl in H; try discriminate.
    destruct s0; simpl in H; try discriminate. injection H as <-.
    simpl. rewrite assoc_dict_set, String.eqb_refl. reflexivity.
  - injection H as <-. reflexivity.
Qed.

Lemma in_dict_set {A} (l : list (string * A)) k v x :
  In x (dict_set l k v) -> In x l \/ x = (k, v).
Proof.
  induction l as [|[k' v'] l IH]; simpl.
  - intros [H|[]]; auto.
  - destruct (String.eqb k k') eqn:E; simpl.
    + apply String.eqb_eq in E; subst. intros [H|H]; auto.
    + intros [H|H]; auto. destruct (IH H); auto.
Qed.

Lemma assoc_in_NoDup {A} (l : list (string * A)) k v :
  NoDup (map fst l) -> In (k, v) l -> assoc k l = Some v.
Proof.
  induction l as [|[k' v'] l IH]; simpl; [contradiction|].
  intros Hnd [H|H]; inversion Hnd as [|? ? Hk Hnd']; subst.
  - injection H as <- <-. now rewrite String.eqb_refl.
  - destruct (String.eqb k k') eqn:E; [|auto].
    apply String.eqb_eq in E; subst. exfalso. apply Hk.
    apply (in_map fst) in H. exact H.
Qed.

Lemma build_entries_from existing : forall d acc entries,
  build_entries existing d acc = Ret entries ->
  forall k s, In (k, s) entries ->
  In (k, s) acc \/ exists u, In (k, u) d /\ new_settings existing k u = Ret s.
Proof.
  induction d as [|[k0 u0] d IH]; simpl; intros acc entries H k s Hin.
  - injection H as <-. auto.
  - destruct (new_settings existing k0 u0) as [s0|e] eqn:Es; simpl in H; [|discriminate].
    destruct (IH _ _ H k s Hin) as [H1|(u & Hu & Hs)].
    + destruct (in_dict_set _ _ _ _ H1) as [H2|H2]; auto.
      injection H2 as -> ->. right. exists u0. auto.
    + right. exists u. auto.
Qed.

Lemma detect_items_fresh existing d : forall entries,
  NoDup (map fst d) ->
  (forall k s, In (k, s) entries -> exists u, In (k, u) d /\ new_settings existing k u = Ret s) ->
  detect_items d entries = Ret false.
Proof.
  induction entries as [|[k s] entries IH]; simpl; intros Hnd Hall; [reflexivity|].
  destruct (Hall k s (or_introl eq_refl)) as (u & Hu & Hs).
  rewrite (new_settings_trakt_list _ _ _ _ Hs); simpl. rewrite py_set_urls; simpl.
  rewrite (assoc_in_NoDup _ _ _ Hnd Hu), set_eqb_refl. apply IH; auto.
Qed.

(** A document just written by a sync shows no change against the same
    classification. *)
Lemma detect_after_build existing d v :
  build_new_collections existing d = Ret v -> NoDup (map fst d) ->
  detect_changes v d = Ret false.
Proof.
  unfold build_new_collections. intros H Hnd.
  destruct (build_entries existing d []) as [entries|] eqn:Eb; simpl in H; [|discriminate].
  injection H as <-. unfold detect_changes. simpl.
  apply (detect_items_fresh existing); [exact Hnd|].
  intros k s Hin. destruct (build_entries_from _ _ _ _ Eb k s Hin) as [[]|H]; exact H.
Qed.

(** When the detection finds nothing, a sync without [force] returns [True]
    and writes nothing. *)
Lemma sync_no_change E config w paths cd d :
  get_kometa_paths config = Ret paths -> py_path (snd paths) = Ret cd ->
  (exists_ w cd = true \/ mkdir_ok E cd = true) ->
  fetch_lists E config = Ret (Some d) ->
  detect_changes (existing_of E w (join cd collections_file_name)) d = Ret false ->
  out_res (sync_anime_episode_collections E config false w) = Ret true /\
  out_log (sync_anime_episode_collections E config false w) = [].
Proof.
  intros Hg Hc Hex Hf Hd. unfold sync_anime_episode_collections.
  rewrite Hg; mstep. rewrite Hc; mstep.
  destruct (exists_ w cd) eqn:E1;
    [|destruct Hex as [Hex|Hex]; [discriminate|]; rewrite Hex];
    cbn [negb]; rewrite Hf; mstep; try rewrite existing_of_add_dir; rewrite Hd; mstep;
    split; reflexivity.
Qed.

(** ** Claims about the collections file *)

Lemma existing_of_FileIs E w p v :
  FileIs p (FYaml v) w ->
  existing_of E w p = if read_ok E p then (if truthy v then v else empty_existing)
                      else empty_existing.
Proof.
  intros H. unfold existing_of. rewrite (FileIs_exists _ _ _ H).
  unfold FileIs in H. rewrite H. reflexivity.
Qed.

Lemma detect_changes_empty d : detect_changes empty_existing d = Ret false.
Proof. reflexivity. Qed.

Lemma fetch_lists_NoDup E config d :
  fetch_lists E config = Ret (Some d) -> NoDup (map fst d).
Proof. intros H. rewrite (fetch_lists_keys _ _ _ H). exact category_names_NoDup. Qed.

(** The shape of the collections document a sync writes. *)
Lemma sync_write_shape E config f w p c :
  collections_path config = Ret p ->
  In (p, c) (out_log (sync_anime_episode_collections E config f w)) ->
  exists entries, c = FYaml (YMap [("collections", YMap entries)]) /\
                  map fst entries = category_names.
Proof.
  intros Hp Hin.
  destruct (sync_collections_write _ _ _ _ _ _ Hp Hin)
    as (paths & cd & d & v & _ & _ & _ & Hf & _ & -> & Hb & _ & _).
  destruct (build_new_shape _ _ _ Hb (fetch_lists_NoDup _ _ _ Hf)) as (entries & -> & Hk).
  exists entries. split; [reflexivity|]. rewrite Hk. exact (fetch_lists_keys _ _ _ Hf).
Qed.

(** C4: after a sync that wrote the collections file, a second sync with
    [force_update = False], the same configuration and the same collaborators
    (so the same remote lists) returns [True] and writes nothing. *)
Theorem sync_second_run_no_write E config f1 w0 p c :
  collections_path config = Ret p ->
  In (p, c) (out_log (sync_anime_episode_collections E config f1 w0)) ->
  out_res (sync_anime_episode_collections E config false
             (out_world (sync_anime_episode_collections E config f1 w0))) = Ret true /\
  out_log (sync_anime_episode_collections E config false
             (out_world (sync_anime_episode_collections E config f1 w0))) = [].
Proof.
  intros Hp Hin.
  destruct (sync_collections_write _ _ _ _ _ _ Hp Hin)
    as (paths & cd & d & v & Hg & Hc & Hpe & Hf & Hex & -> & Hb & _ & Hfile).
  subst p. pose proof (fetch_lists_NoDup _ _ _ Hf) as Hnd.
  apply (sync_no_change _ _ _ paths cd d Hg Hc); [| exact Hf |].
  - destruct Hex as [Hex|Hex]; [left | right; exact Hex].
    exact (sync_grows (fun w => exists_ w cd = true) (exists_grows_add_dir cd)
             (exists_grows_set_file cd) E config f1 w0 Hex).
  - rewrite (existing_of_FileIs _ _ _ _ Hfile).
    destruct (read_ok E (join cd collections_file_name)); [|apply detect_changes_empty].
    destruct (build_new_shape _ _ _ Hb Hnd) as (entries & Hv & _).
    rewrite Hv in *. simpl truthy. cbv iota.
    exact (detect_after_build _ _ _ Hb Hnd).
Qed.

Lemma sync_second_run_no_write_witness :
  exists c,
    collections_path alice_config = Ret default_collections_file /\
    In (default_collections_file, c)
       (out_log (sync_anime_episode_collections naruto_env alice_config true empty_world)) /\
    out_res (sync_anime_episode_collections naruto_env alice_config false
               (out_world (sync_anime_episode_collections naruto_env alice_config true
                             empty_world))) = Ret true /\
    out_log (sync_anime_episode_collections naruto_env alice_config false
               (out_world (sync_anime_episode_collections naruto_env alice_config true
                             empty_world))) = [].
Proof.
  assert (Hp : collections_path alice_config = Ret default_collections_file) by reflexivity.
  exists (FYaml (match written_doc default_collections_file
                        (out_log (sync_anime_episode_collections naruto_env alice_config true
                                    empty_world)) with
                 | Some v => v | None => YNull end)).
  assert (Hin : In (default_collections_file,
                    FYaml (match written_doc default_collections_file
                                   (out_log (sync_anime_episode_collections naruto_env
                                               alice_config true empty_world)) with
                           | Some v => v | None => YNull end))
                   (out_log (sync_anime_episode_collections naruto_env alice_config true
                               empty_world)))
    by (vm_compute; left; reflexivity).
  split; [exact Hp|]. split; [exact Hin|].
  exact (sync_second_run_no_write _ _ _ _ _ _ Hp Hin).
Defined.

(** C6: every collections document a sync writes has the form
    [{'collections': entries}] where [entries] has exactly one key for each of
    the four fixed categories, in the order Fillers, Manga Canon, Anime Canon,
    Mixed Canon/Filler, whatever the remote lists were. *)
Theorem sync_writes_four_categories E config f w p c :
  collections_path config = Ret p ->
  In (p, c) (out_log (sync_anime_episode_collections E config f w)) ->
  exists entries, c = FYaml (YMap [("collections", YMap entries)]) /\
                  map fst entries = category_names.
Proof. intros Hp Hin. exact (sync_write_shape _ _ _ _ _ _ Hp Hin). Qed.

Lemma sync_writes_four_categories_witness :
  exists c,
    (collections_path alice_config = Ret default_collections_file /\
     In (default_collections_file, c)
        (out_log (sync_anime_episode_collections naruto_env alice_config true
                    (world_with_collections custom_prior)))) /\
    exists entries, c = FYaml (YMap [("collections", YMap entries)]) /\
                    map fst entries = category_names.
Proof.
  assert (Hp : collections_path alice_config = Ret default_collections_file) by reflexivity.
  exists (FYaml (match written_doc default_collections_file
                        (out_log (sync_anime_episode_collections naruto_env alice_config true
                                    (world_with_collections custom_prior))) with
                 | Some v => v | None => YNull end)).
  assert (Hin : In (default_collections_file,
                    FYaml (match written_doc default_collections_file
                                   (out_log (sync_anime_episode_collections naruto_env
                                               alice_config true
                                               (world_with_collections custom_prior))) with
                           | Some v => v | None => YNull end))
                   (out_log (sync_anime_episode_collections naruto_env alice_config true
                               (world_with_collections custom_prior))))
    by (vm_compute; left; reflexivity).
  split; [split; [exact Hp | exact Hin]|].
  exact (sync_writes_four_categories _ _ _ _ _ _ Hp Hin).
Defined.

(** ** Claims about the overlay files *)

(** C7: an overlay file ([fillers.yml], [manga_canon.yml], [anime_canon.yml],
    [mixed.yml]) that exists with any content keeps that content through any
    sequence of calls to the overlay emitter and to sync, whatever their
    configurations and collaborators' answers. *)
Theorem overlay_file_kept E cs w d fn c :
  In fn overlay_file_names ->
  lookup_file w (join d fn) = Some c ->
  lookup_file (run_calls E cs w) (join d fn) = Some c.
Proof.
  intros Hfn. revert w.
  induction cs as [|[config|config f] cs IH]; intros w H; simpl; [exact H| |].
  - apply IH. exact (create_overlays_keeps_files E config (join d fn) c w H).
  - apply IH. exact (sync_keeps_overlay_file E config f d fn c Hfn w H).
Qed.

Lemma overlay_file_kept_witness :
  (In "fillers.yml" overlay_file_names /\
   lookup_file custom_overlay_world (join "/kometa/config/overlays" "fillers.yml")
   = Some (FRaw "my own overlay")) /\
  lookup_file (run_calls naruto_env [CallSync alice_config true; CallEmit alice_config;
                                     CallSync alice_config false] custom_overlay_world)
              (join "/kometa/config/overlays" "fillers.yml") = Some (FRaw "my own overlay").
Proof.
  assert (Hfn : In "fillers.yml" overlay_file_names) by (simpl; auto).
  assert (Hl : lookup_file custom_overlay_world (join "/kometa/config/overlays" "fillers.yml")
               = Some (FRaw "my own overlay")) by reflexivity.
  split; [split; [exact Hfn | exact Hl]|].
  exact (overlay_file_kept _ _ _ _ _ _ Hfn Hl).
Defined.

(** ** Claims about the rebuilt entries *)

Lemma assoc_of_key {A} (l : list (string * A)) n :
  In n (map fst l) -> exists v, assoc n l = Some v.
Proof.
  induction l as [|[k v] l IH]; simpl; [contradiction|].
  intros [->|H].
  - exists v. now rewrite String.eqb_refl.
  - destruct (String.eqb n k); [now exists v | exact (IH H)].
Qed.






(** ** Claims about the classification *)

Lemma assoc_cd_append cat : forall d c u,
  assoc cat (cd_append d c u) =
  option_map (fun us => if String.eqb c cat then app us [u] else us) (assoc cat d).
Proof.
  induction d as [|[k us] d IH]; intros c u; simpl; [reflexivity|].
  destruct (String.eqb c k) eqn:Eck; simpl.
  - apply String.eqb_eq in Eck; subst k.
    destruct (String.eqb cat c) eqn:E1.
    + apply String.eqb_eq in E1; subst. now rewrite String.eqb_refl.
    + rewrite (proj2 (String.eqb_neq c cat)); [destruct (assoc cat d); reflexivity|].
      intros ->. now rewrite String.eqb_refl in E1.
  - destruct (String.eqb cat k) eqn:E1; [|apply IH].
    apply String.eqb_eq in E1; subst k. now rewrite Eck.
Qed.

Lemma classify_loop_assoc user : forall recs d d' cat us,
  classify_loop user recs d = Ret d' -> assoc cat d = Some us ->
  assoc cat d' = Some (app us (classify_spec_urls user recs cat)).
Proof.
  induction recs as [|r recs IH]; simpl; intros d d' cat us H Hus.
  - injection H as <-. now rewrite app_nil_r.
  - destruct (classify_one user r) as [[[c u]|]|e]; simpl in H; try discriminate.
    + rewrite (IH _ _ cat (if String.eqb c cat then app us [u] else us) H)
        by (rewrite assoc_cd_append, Hus; reflexivity).
      destruct (String.eqb c cat); simpl; [now rewrite <- app_assoc | reflexivity].
    + exact (IH _ _ _ _ H Hus).
Qed.

(** C2 (as the code has it): when the remote service answers a JSON list,
    each category holds the URL of every remote list of that category, in the
    order of the answer, one per list: a URL reported twice is kept twice. *)
Theorem classify_in_result_order user recs d cat :
  classify user (YList recs) = Ret d -> In cat category_names ->
  assoc cat d = Some (classify_spec_urls user recs cat).
Proof.
  unfold classify. simpl. intros H Hcat.
  apply (classify_loop_assoc _ _ _ _ _ [] H).
  simpl in Hcat. destruct Hcat as [<-|[<-|[<-|[<-|[]]]]]; reflexivity.
Qed.

Lemma classify_in_result_order_witness :
  (classify "alice" repeated_lists
   = Ret [("Fillers", ["https://trakt.tv/users/alice/lists/naruto-filler";
                       "https://trakt.tv/users/alice/lists/naruto-filler"]);
          ("Manga Canon", []); ("Anime Canon", []); ("Mixed Canon/Filler", [])] /\
   In "Fillers" category_names) /\
  assoc "Fillers" [("Fillers", ["https://trakt.tv/users/alice/lists/naruto-filler";
                                "https://trakt.tv/users/alice/lists/naruto-filler"]);
                   ("Manga Canon", []); ("Anime Canon", []); ("Mixed Canon/Filler", [])]
  = Some (classify_spec_urls "alice"
            [YMap [("name", YStr "Naruto_filler"); ("ids", YMap [("slug", YStr "naruto-filler")])];
             YMap [("name", YStr "Naruto_filler"); ("ids", YMap [("slug", YStr "naruto-filler")])]]
            "Fillers").
Proof.
  assert (H : classify "alice" repeated_lists
              = Ret [("Fillers", ["https://trakt.tv/users/alice/lists/naruto-filler";
                                  "https://trakt.tv/users/alice/lists/naruto-filler"]);
                     ("Manga Canon", []); ("Anime Canon", []); ("Mixed Canon/Filler", [])])
    by (vm_compute; reflexivity).
  assert (Hc : In "Fillers" category_names) by (simpl; auto).
  split; [split; [exact H | exact Hc]|].
  exact (classify_in_result_order _ _ _ _ H Hc).
Defined.

(** C2, refuted: the same remote list reported twice gives its URL twice in
    the Fillers category. *)
Lemma classify_keeps_duplicates :
  fetch_lists (env_with (HttpResp 200 (Some repeated_lists))) alice_config
  = Ret (Some [("Fillers", ["https://trakt.tv/users/alice/lists/naruto-filler";
                            "https://trakt.tv/users/alice/lists/naruto-filler"]);
               ("Manga Canon", []); ("Anime Canon", []); ("Mixed Canon/Filler", [])]).
Proof. vm_compute. reflexivity. Qed.

(** ** Claims about errors *)

(** C3: the HTTP call and the decoding of its body are not guarded: with a
    valid configuration, a connection error or a body that is not JSON
    escapes [sync_anime_episode_collections] as an exception instead of a
    [False] result. *)
Theorem sync_http_errors_escape :
  out_res (sync_anime_episode_collections (env_with HttpRaise) alice_config false empty_world)
  = Exc ConnectionError /\
  out_res (sync_anime_episode_collections (env_with (HttpResp 200 None)) alice_config false
             empty_world)
  = Exc JSONDecodeError.
Proof. split; vm_compute; reflexivity. Qed.

(** ** Claims about change detection *)


(** C5: with [force_update = False],
    (i) when there is no prior collections document, or it is empty, or it
        has no entries, the sync returns [True] and writes nothing, whatever
        the fresh classification;
    (ii) detection answers a change as soon as one category of the prior
        document has a [trakt_list] that differs (as a set) from the fresh
        one, whatever the entries after it;
    (iii) detection depends on the fresh classification only through the
        categories named in the prior document. *)
Theorem detection_prior_categories_only :
  (forall E config w paths cd d,
     get_kometa_paths config = Ret paths -> py_path (snd paths) = Ret cd ->
     (exists_ w cd = true \/ mkdir_ok E cd = true) ->
     fetch_lists E config = Ret (Some d) ->
     (lookup_file w (join cd collections_file_name) = None \/
      (exists v, lookup_file w (join cd collections_file_name) = Some (FYaml v) /\
                 truthy v = false) \/
      lookup_file w (join cd collections_file_name) = Some (FYaml empty_existing)) ->
     out_res (sync_anime_episode_collections E config false w) = Ret true /\
     out_log (sync_anime_episode_collections E config false w) = []) /\
  (forall d pre n dat rest tl es urls,
     detect_items d pre = Ret false ->
     pyget dat "trakt_list" (YList []) = Ret tl -> py_set tl = Ret es ->
     assoc n d = Some urls -> set_eqb es (map AStr urls) = false ->
     detect_items d (pre ++ (n, dat) :: rest) = Ret true) /\
  (forall d1 d2 items,
     (forall n, In n (map fst items) -> assoc n d1 = assoc n d2) ->
     detect_items d1 items = detect_items d2 items).
Proof.
  split; [|split].
  - intros E config w paths cd d Hg Hc Hex Hf Hprior.
    apply (sync_no_change _ _ _ paths cd d Hg Hc Hex Hf).
    destruct Hprior as [Hl|[(v & Hl & Ht)|Hl]].
    + unfold existing_of. rewrite Hl.
      destruct (exists_ w (join cd collections_file_name)); reflexivity.
    + rewrite (existing_of_FileIs _ _ _ _ Hl), Ht. destruct (read_ok _ _); reflexivity.
    + rewrite (existing_of_FileIs _ _ _ _ Hl). destruct (read_ok _ _); reflexivity.
  - intros d pre n dat rest tl es urls Hpre Htl Hes Hurls Hneq. revert Hpre.
    induction pre as [|[k v] pre IH]; simpl; intros H.
    + rewrite Htl. simpl. rewrite Hes. simpl. rewrite Hurls, Hneq. reflexivity.
    + destruct (pyget v "trakt_list" (YList [])) as [tl'|e]; simpl in *; [|discriminate].
      destruct (py_set tl') as [es'|e]; simpl in *; [|discriminate].
      destruct (assoc k d) as [u'|]; [|exact (IH H)].
      destruct (set_eqb es' (map AStr u')); [exact (IH H) | discriminate].
  - intros d1 d2 items. induction items as [|[k v] items IH]; cbn [detect_items];
      intros Hag; [reflexivity|].
    destruct (pyget v "trakt_list" (YList [])) as [tl|e]; simpl; [|reflexivity].
    destruct (py_set tl) as [es|e]; simpl; [|reflexivity].
    rewrite (Hag k (or_introl eq_refl)).
    assert (IH' : detect_items d1 items = detect_items d2 items)
      by (apply IH; intros n Hn; apply Hag; right; exact Hn).
    destruct (assoc k d2); [destruct (set_eqb es _)|]; auto.
Qed.

Lemma detection_prior_categories_only_witness :
  (out_res (sync_anime_episode_collections naruto_env alice_config false empty_world) = Ret true /\
   out_log (sync_anime_episode_collections naruto_env alice_config false empty_world) = []) /\
  detect_items [("Fillers", ["u"])]
               ([] ++ ("Fillers", YMap [("trakt_list", YList [])]) :: [("Other", YStr "x")])
  = Ret true /\
  detect_items [("Fillers", ["u"]); ("Manga Canon", ["a"])]
               [("Fillers", YMap [("trakt_list", YList [YStr "u"])])]
  = detect_items [("Fillers", ["u"]); ("Manga Canon", ["b"])]
                 [("Fillers", YMap [("trakt_list", YList [YStr "u"])])].
Proof.
  destruct detection_prior_categories_only as (H1 & H2 & H3).
  split; [|split].
  - eapply H1; [reflexivity | reflexivity | right; reflexivity | reflexivity | left; reflexivity].
  - eapply H2; reflexivity.
  - apply H3. intros n [<-|[]]. reflexivity.
Defined.







(** ** Claims about asset provisioning *)

Lemma exists_add_dir_other w d x : d <> x -> exists_ (add_dir w d) x = exists_ w x.
Proof.
  intros H. unfold exists_, lookup_file; simpl.
  destruct (assoc x (files w)); [reflexivity|].
  destruct (String.eqb x d) eqn:E; [apply String.eqb_eq in E; congruence | reflexivity].
Qed.






Lemma Post_ret {A} (Q : A -> Prop) (a : A) : Q a -> Post Q (ret a).
Proof. intros H w b Hb. injection Hb as <-. exact H. Qed.

Lemma Post_bind {A B} (Q : B -> Prop) (m : M A) (k : A -> M B) :
  (forall a, Post Q (k a)) -> Post Q (bind m k).
Proof.
  intros Hk w b H. unfold bind in H.
  destruct (m w) as [[a|e] w1 l1]; simpl in H; [exact (Hk a w1 b H) | discriminate].
Qed.

Lemma setup_assets_post E config : Post (fun b => b = true) (setup_assets E config).
Proof.
  unfold setup_assets. cbv zeta.
  repeat (apply Post_bind; intro).
  match goal with |- Post _ (if ?c then _ else _) => destruct c end;
    repeat (apply Post_bind; intro); apply Post_ret; reflexivity.
Qed.

(** C10 (as the code has it): [setup_assets] returns [True] whenever it
    returns. It has no handler of its own: when one of its steps raises (the
    poster setup, the font setup, the lookups of
    [services.anime_episode_type.enabled], the collections sync, the overlay
    creation), [setup_assets] raises the same exception. *)
Theorem setup_assets_true_unless_raised E config w :
  (out_res (setup_assets E config w) = Ret true \/
   exists e, out_res (setup_assets E config w) = Exc e) /\
  (forall e w1 l1, setup_collection_posters E config w = mkOut (Exc e) w1 l1 ->
     out_res (setup_assets E config w) = Exc e) /\
  (forall b w1 l1, setup_collection_posters E config w = mkOut (Ret b) w1 l1 ->
   (forall e w2 l2, setup_fonts E config w1 = mkOut (Exc e) w2 l2 ->
      out_res (setup_assets E config w) = Exc e) /\
   (forall fr w2 l2, setup_fonts E config w1 = mkOut (Ret fr) w2 l2 ->
    (forall e, (s <-? pyget (snd fr) "services" (YMap []) ;;
                a <-? pyget s "anime_episode_type" (YMap []) ;;
                pyget a "enabled" (YBool false)) = Exc e ->
       out_res (setup_assets E config w) = Exc e) /\
    (forall s a en, pyget (snd fr) "services" (YMap []) = Ret s ->
       pyget s "anime_episode_type" (YMap []) = Ret a ->
       pyget a "enabled" (YBool false) = Ret en -> truthy en = true ->
       (forall e w3 l3, update_anime_episode_collections E (snd fr) w2 = mkOut (Exc e) w3 l3 ->
          out_res (setup_assets E config w) = Exc e) /\
       (forall r w3 l3 e w4 l4,
          update_anime_episode_collections E (snd fr) w2 = mkOut (Ret r) w3 l3 ->
          create_anime_overlay_files E (snd fr) w3 = mkOut (Exc e) w4 l4 ->
          out_res (setup_assets E config w) = Exc e)))).
Proof.
  split.
  { pose proof (setup_assets_post E config w) as H.
    destruct (out_res (setup_assets E config w)) as [b|e].
    - left. rewrite (H b eq_refl). reflexivity.
    - right. exists e. reflexivity. }
  unfold setup_assets, bind, lift; cbv zeta.
  split; [intros e w1 l1 Hp; rewrite Hp; reflexivity|].
  intros b w1 l1 Hp. rewrite Hp. cbn [out_res].
  split; [intros e w2 l2 Hf; rewrite Hf; reflexivity|].
  intros fr w2 l2 Hf. rewrite Hf. cbn [out_res].
  split.
  - intros e He.
    destruct (pyget (snd fr) "services" (YMap [])) as [s|e1]; cbn [rbind] in He;
      [|injection He as ->; reflexivity].
    destruct (pyget s "anime_episode_type" (YMap [])) as [a|e2]; cbn [rbind] in He;
      [|injection He as ->; reflexivity].
    rewrite He. reflexivity.
  - intros s a en Hs Ha Hen Ht. rewrite Hs, Ha, Hen, Ht. cbn [out_res].
    split.
    + intros e w3 l3 Hu. rewrite Hu. reflexivity.
    + intros r w3 l3 e w4 l4 Hu Hc. rewrite Hu, Hc. reflexivity.
Qed.

Lemma setup_assets_true_unless_raised_witness :
  out_res (setup_assets (env_with HttpRaise) alice_enabled_config empty_world)
  = Exc ConnectionError.
Proof.
  destruct (setup_assets_true_unless_raised (env_with HttpRaise) alice_enabled_config
              empty_world) as (_ & _ & H).
  set (po := setup_collection_posters (env_with HttpRaise) alice_enabled_config empty_world).
  assert (Hp : po = mkOut (Ret false) (out_world po) (out_log po)) by (vm_compute; reflexivity).
  destruct (H false (out_world po) (out_log po) Hp) as (_ & H2).
  set (fo := setup_fonts (env_with HttpRaise) alice_enabled_config (out_world po)).
  assert (Hf : fo = mkOut (Ret (false, alice_enabled_config)) (out_world fo) (out_log fo))
    by (vm_compute; reflexivity).
  destruct (H2 (false, alice_enabled_config) (out_world fo) (out_log fo) Hf) as (_ & H3).
  destruct (H3 (YMap [("anime_episode_type", YMap [("enabled", YBool true)])])
               (YMap [("enabled", YBool true)]) (YBool true)
               eq_refl eq_refl eq_refl eq_refl) as [H4 _].
  set (uo := update_anime_episode_collections (env_with HttpRaise) alice_enabled_config
               (out_world fo)).
  apply (H4 ConnectionError (out_world uo) (out_log uo)). vm_compute. reflexivity.
Defined.

(** * Further properties of the module *)

Lemma rbind_Ret_inv {A B} (r : res A) (k : A -> res B) b :
  rbind r k = Ret b -> exists a, r = Ret a /\ k a = Ret b.
Proof. destruct r as [a|e]; simpl; [eauto | discriminate]. Qed.

Lemma truthy_or_default x s :
  s <> "" -> truthy (if negb (truthy x) then YStr s else x) = true.
Proof.
  intros Hs. destruct (truthy x) eqn:E; simpl; [exact E|].
  apply negb_true_iff, String.eqb_neq, Hs.
Qed.

(** X1: [get_kometa_paths] never returns an empty path: both paths it returns
    are truthy. *)
Theorem get_kometa_paths_truthy config y c :
  get_kometa_paths config = Ret (y, c) -> truthy y = true /\ truthy c = true.
Proof.
  unfold get_kometa_paths. intros H.
  repeat (apply rbind_Ret_inv in H; destruct H as [? [_ H]]).
  cbv zeta in H. injection H as <- <-.
  split; apply truthy_or_default; discriminate.
Qed.

(** X2: Without a [kometa_config] and a [services] section, [get_kometa_paths]
    returns the default overlay and collections directories. *)
Theorem get_kometa_paths_defaults m :
  assoc "kometa_config" m = None -> assoc "services" m = None ->
  get_kometa_paths (YMap m) =
  Ret (YStr "/kometa/config/overlays", YStr "/kometa/config/collections").
Proof.
  intros H1 H2. unfold get_kometa_paths, pyget, py_contains. rewrite H1, H2. reflexivity.
Qed.

(** X3: The values of [kometa_config] win: when both are non-empty there, they
    are returned whatever [services] holds. *)
Theorem get_kometa_paths_kometa_config m kc y c :
  assoc "kometa_config" m = Some (YMap kc) ->
  assoc "yaml_output_dir" kc = Some y -> truthy y = true ->
  assoc "collections_dir" kc = Some c -> truthy c = true ->
  get_kometa_paths (YMap m) = Ret (y, c).
Proof.
  intros H1 Hy Hty Hc Htc. unfold get_kometa_paths, pyget. rewrite H1. simpl.
  rewrite Hy, Hc. simpl. rewrite Hty, Htc. simpl. rewrite Hty, Htc. reflexivity.
Qed.

(** X4: Without [kometa_config], the directories of the
    [services.tv_status_tracker] section are used when they are non-empty. *)
Theorem get_kometa_paths_tracker_fallback m sv t y c :
  assoc "kometa_config" m = None ->
  assoc "services" m = Some (YMap sv) ->
  assoc "tv_status_tracker" sv = Some (YMap t) ->
  assoc "yaml_output_dir" t = Some y -> truthy y = true ->
  assoc "collections_dir" t = Some c -> truthy c = true ->
  get_kometa_paths (YMap m) = Ret (y, c).
Proof.
  intros H1 H2 H3 Hy Hty Hc Htc. unfold get_kometa_paths, pyget, py_contains, py_getitem.
  rewrite H1. simpl. rewrite H2. simpl. rewrite H3. simpl. rewrite Hy, Hc. simpl.
  rewrite Hty, Htc. reflexivity.
Qed.

Lemma get_kometa_paths_tracker_fallback_witness :
  get_kometa_paths (YMap [("services", YMap [("tv_status_tracker",
      YMap [("yaml_output_dir", YStr "/k/ov"); ("collections_dir", YStr "/k/co")])])]) =
  Ret (YStr "/k/ov", YStr "/k/co").
Proof.
  apply (get_kometa_paths_tracker_fallback _
           [("tv_status_tracker", YMap [("yaml_output_dir", YStr "/k/ov");
                                        ("collections_dir", YStr "/k/co")])]
           [("yaml_output_dir", YStr "/k/ov"); ("collections_dir", YStr "/k/co")]);
    reflexivity.
Defined.

Lemma get_kometa_paths_truthy_witness :
  truthy (YStr "/kometa/config/overlays") = true /\
  truthy (YStr "/kometa/config/collections") = true.
Proof. apply (get_kometa_paths_truthy alice_config). reflexivity. Defined.

Lemma get_kometa_paths_defaults_witness :
  get_kometa_paths alice_config =
  Ret (YStr "/kometa/config/overlays", YStr "/kometa/config/collections").
Proof. apply get_kometa_paths_defaults; reflexivity. Defined.

Lemma get_kometa_paths_kometa_config_witness :
  get_kometa_paths (YMap [("kometa_config", YMap [("yaml_output_dir", YStr "/k/ov");
                                                  ("collections_dir", YStr "/k/co")]);
                          ("services", YStr "x")]) =
  Ret (YStr "/k/ov", YStr "/k/co").
Proof.
  apply (get_kometa_paths_kometa_config _
           [("yaml_output_dir", YStr "/k/ov"); ("collections_dir", YStr "/k/co")]);
    reflexivity.
Defined.

Lemma exists_add_dir_same w d : exists_ (add_dir w d) d = true.
Proof.
  unfold exists_, lookup_file; simpl. destruct (assoc d (files w)); [reflexivity|].
  now rewrite String.eqb_refl.
Qed.

(** X5: [ensure_directory] returns whether something exists at the path once
    it is done ([os.path.exists]: a directory, or a file that was already
    there, for which it returns [True] without creating anything); it writes
    no file, leaves the files as they were, and changes nothing when the path
    already exists. *)
Theorem ensure_directory_reports_existence E d w :
  out_res (ensure_directory E d w) = Ret (exists_ (out_world (ensure_directory E d w)) d) /\
  out_log (ensure_directory E d w) = [] /\
  files (out_world (ensure_directory E d w)) = files w /\
  (exists_ w d = true -> out_world (ensure_directory E d w) = w).
Proof.
  unfold ensure_directory.
  destruct (exists_ w d) eqn:Ex; [|destruct (mkdir_ok E d)]; simpl.
  - rewrite Ex. auto.
  - rewrite exists_add_dir_same. intuition discriminate.
  - rewrite Ex. intuition discriminate.
Qed.

Lemma lookup_file_add_dir w d p : lookup_file (add_dir w d) p = lookup_file w p.
Proof. reflexivity. Qed.

Lemma isdir_add_dir_other w d x : d <> x -> isdir (add_dir w d) x = isdir w x.
Proof.
  intros Hne. unfold isdir. rewrite lookup_file_add_dir.
  destruct (lookup_file w x); [reflexivity|]. cbn [add_dir dirs existsb].
  destruct (String.eqb_spec x d); [congruence|reflexivity].
Qed.

Lemma copy_target_add_dir w d s dst :
  d <> dst -> copy_target (add_dir w d) s dst = copy_target w s dst.
Proof. intros H. unfold copy_target. now rewrite isdir_add_dir_other. Qed.

Lemma join_not_dir a b : is_prefix "/" b = false -> b <> "" -> join a b <> a.
Proof.
  intros H Hb. unfold join. rewrite H. intros Heq.
  apply (f_equal String.length) in Heq.
  destruct (String.eqb a "" || ends_with_slash a); rewrite ?str_length_app in Heq;
    destruct b; [contradiction| |contradiction|]; simpl in Heq; lia.
Qed.

Lemma rfind_slash_aux_app : forall s t i best,
  rfind_slash_aux i (s ++ t) best =
  rfind_slash_aux (i + String.length s) t (rfind_slash_aux i s best).
Proof.
  induction s as [|c s IH]; intros t i best; simpl.
  - now rewrite Nat.add_0_r.
  - rewrite IH. now rewrite Nat.add_succ_r.
Qed.

Lemma rfind_slash_aux_bound : forall s i best k,
  (forall k', best = Some k' -> k' < i) ->
  rfind_slash_aux i s best = Some k -> k < i + String.length s.
Proof.
  induction s as [|c s IH]; intros i best k Hb H; simpl in H |- *.
  - specialize (Hb _ H). lia.
  - apply IH in H; [lia|]. intros k' Hk'.
    destruct (Ascii.eqb c slash); [injection Hk' as <-; lia|]. specialize (Hb _ Hk'). lia.
Qed.

Lemma substring_0_length : forall p n, String.length (substring 0 n p) <= n.
Proof.
  induction p as [|c p IH]; intros n; destruct n; simpl; try lia.
  specialize (IH n). lia.
Qed.

Lemma rstrip_slash_length : forall s, String.length (rstrip_slash s) <= String.length s.
Proof.
  induction s as [|c s IH]; simpl; [lia|].
  destruct (Ascii.eqb c slash && String.eqb (rstrip_slash s) ""); simpl; lia.
Qed.

(** A path whose last component [t] is non-empty and has no slash is not its
    own directory. *)
Lemma dirname_app_neq x t :
  t <> "" -> (forall i b, rfind_slash_aux i t b = b) -> dirname (x ++ t) <> x ++ t.
Proof.
  intros Ht Hno Heq. apply (f_equal String.length) in Heq.
  revert Heq. unfold dirname. rewrite rfind_slash_aux_app, Hno.
  assert (Hi : match rfind_slash_aux 0 x None with Some k => S k | None => 0 end
               <= String.length x).
  { destruct (rfind_slash_aux 0 x None) as [k|] eqn:Hk; [|lia].
    apply rfind_slash_aux_bound in Hk; [lia|]. discriminate. }
  assert (Hlt : String.length x < String.length (x ++ t)).
  { rewrite str_length_app. destruct t; [contradiction|simpl; lia]. }
  set (i := match rfind_slash_aux 0 x None with Some k => S k | None => 0 end) in *.
  pose proof (substring_0_length (x ++ t) i) as Hs.
  pose proof (rstrip_slash_length (substring 0 i (x ++ t))) as Hr.
  destruct (negb _ && negb _); lia.
Qed.

Lemma join_dirname_neq a b :
  is_prefix "/" b = false -> b <> "" -> (forall i best, rfind_slash_aux i b best = best) ->
  dirname (join a b) <> join a b.
Proof.
  intros Hp Hb Hno. destruct (join_suffix a b Hp) as [x ->].
  now apply dirname_app_neq.
Qed.

Lemma copy2_cases E s dst w :
  (out_res (copy2 E s dst w) = Ret tt /\
   exists c, lookup_file w s = Some c /\ copy_target w s dst <> s /\
     out_log (copy2 E s dst w) = [(copy_target w s dst, c)] /\
     out_world (copy2 E s dst w) = set_file w (copy_target w s dst) c)
  \/ (exists e, out_res (copy2 E s dst w) = Exc e /\ out_log (copy2 E s dst w) = []).
Proof.
  unfold copy2, write_file; cbv zeta.
  destruct (String.eqb_spec s (copy_target w s dst)) as [Heq|Hne];
    [right; eexists; split; reflexivity|].
  destruct (lookup_file w s) as [c|] eqn:Hs; [|right; eexists; split; reflexivity].
  destruct (isdir w (copy_target w s dst)); [right; eexists; split; reflexivity|].
  destruct (write_ok E (copy_target w s dst)); [left|right; eexists; split; reflexivity].
  split; [reflexivity|]. exists c. repeat split; auto.
Qed.

Lemma copy_asset_cases E s dst w :
  (out_res (copy_asset E s dst w) = Ret true /\
   exists c w1, (w1 = w \/ w1 = add_dir w (dirname dst)) /\
     lookup_file w s = Some c /\ copy_target w1 s dst <> s /\
     out_log (copy_asset E s dst w) = [(copy_target w1 s dst, c)] /\
     FileIs (copy_target w1 s dst) c (out_world (copy_asset E s dst w)))
  \/ (out_res (copy_asset E s dst w) = Ret false /\ out_log (copy_asset E s dst w) = []).
Proof.
  unfold copy_asset, try_, bind, ensure_directory, ret; cbv beta.
  destruct (exists_ w (dirname dst)); [|destruct (mkdir_ok E (dirname dst))];
    cbn [negb]; [| |right; split; reflexivity].
  all: match goal with |- context [copy2 ?E0 ?s0 ?d0 ?W] =>
         assert (HW : W = w \/ W = add_dir w (dirname dst)) by auto;
         destruct (copy2_cases E0 s0 d0 W) as [(Hr & c & Hs & Hne & Hl & Hw)|(e & Hr & Hl)];
         destruct (copy2 E0 s0 d0 W) as [r1 w2 l1] end;
       cbn in *; subst; [left| right; auto].
  all: split; [reflexivity|]; eexists c, _; split; [exact HW|].
  all: rewrite ?lookup_file_add_dir in Hs; rewrite ?app_nil_r.
  all: repeat split; [exact Hs|exact Hne|apply FileIs_set_same].
Qed.

(** X6: [copy_asset] never raises. When it returns [True] it has read the
    source and written its content to one file other than the source: the
    destination, or [destination/basename(source)] when the destination is a
    directory ([copy_target], as [shutil.copy2] picks it; for a destination
    that is not its own [dirname], the directory test is the one of the world
    before the call). Otherwise it returns [False]; a missing source makes it
    return [False] without writing. *)
Theorem copy_asset_outcome E s dst w :
  (out_res (copy_asset E s dst w) = Ret true ->
   exists c t, lookup_file w s = Some c /\ t <> s /\
     out_log (copy_asset E s dst w) = [(t, c)] /\
     FileIs t c (out_world (copy_asset E s dst w)) /\
     (t = dst \/ t = join dst (basename s)) /\
     (dirname dst <> dst -> t = copy_target w s dst)) /\
  (out_res (copy_asset E s dst w) <> Ret true -> out_res (copy_asset E s dst w) = Ret false) /\
  (lookup_file w s = None ->
   out_res (copy_asset E s dst w) = Ret false /\ out_log (copy_asset E s dst w) = []).
Proof.
  destruct (copy_asset_cases E s dst w) as [(Hr & c & w1 & Hw1 & Hs & Hne & Hl & Hf)|(Hr & Hl)].
  - split; [|split; [intros H; contradiction|congruence]].
    intros _. exists c, (copy_target w1 s dst). repeat split; auto.
    + unfold copy_target. destruct (isdir w1 dst); auto.
    + intros Hd. destruct Hw1 as [->| ->]; [reflexivity|]. now apply copy_target_add_dir.
  - rewrite Hr. split; [discriminate|]. auto.
Qed.

Lemma poster_dest_neq a :
  dirname (join a "poster.jpg") <> join a "poster.jpg" /\ a <> join a "poster.jpg".
Proof.
  split.
  - apply join_dirname_neq; [reflexivity|discriminate|reflexivity].
  - intros H. symmetry in H. revert H. apply join_not_dir; [reflexivity|discriminate].
Qed.

Lemma font_dest_neq a :
  dirname (join a "Juventus-Fans-Bold.ttf") <> join a "Juventus-Fans-Bold.ttf" /\
  a <> join a "Juventus-Fans-Bold.ttf".
Proof.
  split.
  - apply join_dirname_neq; [reflexivity|discriminate|reflexivity].
  - intros H. symmetry in H. revert H. apply join_not_dir; [reflexivity|discriminate].
Qed.

(** Where a successful [copy_asset] wrote, when the destination is not its
    own [dirname] and the world it runs on is [w] with at most one directory
    [a] (not the destination) added. *)
Lemma copy_asset_lands E s dst w w0 a :
  dirname dst <> dst -> a <> dst -> (w0 = w \/ w0 = add_dir w a) ->
  out_res (copy_asset E s dst w0) = Ret true ->
  exists c, lookup_file w s = Some c /\
    FileIs (if isdir w dst then join dst (basename s) else dst) c
           (out_world (copy_asset E s dst w0)).
Proof.
  intros Hd Ha Hw0 H.
  destruct (copy_asset_cases E s dst w0) as [(_ & c & w1 & Hw1 & Hs & _ & _ & Hf)|(Hr & _)];
    [|congruence].
  exists c. split.
  - destruct Hw0 as [->| ->]; [exact Hs|]. now rewrite lookup_file_add_dir in Hs.
  - replace (if isdir w dst then join dst (basename s) else dst)
      with (copy_target w1 s dst); [exact Hf|].
    unfold copy_target.
    destruct Hw1 as [->| ->]; rewrite ?isdir_add_dir_other by exact Hd;
      destruct Hw0 as [->| ->]; rewrite ?isdir_add_dir_other by exact Ha; reflexivity.
Qed.

(** X7: When [setup_collection_posters] returns [True], the poster source
    exists and its content is at [poster.jpg] in the [assets/Next Airing]
    directory next to the collections directory, or inside [poster.jpg] under
    the source's base name when [poster.jpg] was already a directory. *)
Theorem setup_collection_posters_copied E config w :
  out_res (setup_collection_posters E config w) = Ret true ->
  exists paths cd c,
    get_kometa_paths config = Ret paths /\ py_path (snd paths) = Ret cd /\
    lookup_file w poster_source = Some c /\
    let pd := join (join (join (dirname cd) "assets") "Next Airing") "poster.jpg" in
    (isdir w pd = false -> FileIs pd c (out_world (setup_collection_posters E config w))) /\
    (isdir w pd = true ->
     FileIs (join pd (basename poster_source)) c (out_world (setup_collection_posters E config w))).
Proof.
  unfold setup_collection_posters. intros H.
  destruct (get_kometa_paths config) as [paths|e] eqn:Hg; mstep; [|discriminate].
  destruct (py_path (snd paths)) as [cd|e] eqn:Hc; mstep; [|discriminate].
  exists paths, cd.
  set (ad := join (join (dirname cd) "assets") "Next Airing") in *.
  destruct (poster_dest_neq ad) as [Hd Ha].
  destruct (exists_ w ad); [|destruct (mkdir_ok E ad)]; cbn [negb] in *; mstep;
    try discriminate.
  all: match type of H with context [if exists_ ?w0 poster_source then _ else _] =>
         destruct (exists_ w0 poster_source) end; [|discriminate].
  all: match type of H with out_res (copy_asset ?E0 ?s0 ?d0 ?w0) = _ =>
         first [ destruct (copy_asset_lands E0 s0 d0 w w0 ad Hd Ha (or_introl eq_refl) H)
                   as (c & Hs & Hf)
               | destruct (copy_asset_lands E0 s0 d0 w w0 ad Hd Ha (or_intror eq_refl) H)
                   as (c & Hs & Hf) ] end.
  all: exists c; split; [first [reflexivity|assumption]|]; split; [first [reflexivity|assumption]|]; split; [exact Hs|].
  all: cbv zeta; split; intros Hi; rewrite Hi in Hf; exact Hf.
Qed.

Lemma setup_collection_posters_copied_witness :
  let w0 := mkWorld [(poster_source, FRaw "jpg")]
                    ["/kometa/config/assets/Next Airing/poster.jpg"] in
  exists paths cd c,
    get_kometa_paths alice_config = Ret paths /\ py_path (snd paths) = Ret cd /\
    lookup_file w0 poster_source = Some c /\
    let pd := join (join (join (dirname cd) "assets") "Next Airing") "poster.jpg" in
    (isdir w0 pd = false -> FileIs pd c (out_world (setup_collection_posters naruto_env alice_config w0))) /\
    (isdir w0 pd = true ->
     FileIs (join pd (basename poster_source)) c
            (out_world (setup_collection_posters naruto_env alice_config w0))).
Proof. intros w0. apply setup_collection_posters_copied. vm_compute. reflexivity. Defined.

Lemma set_font_path_get config v cfg :
  set_font_path config v = Ret cfg ->
  (sv <-? py_getitem cfg "services" ;;
   t <-? py_getitem sv "tv_status_tracker" ;;
   py_getitem t "font_path") = Ret v.
Proof.
  unfold set_font_path. intros H.
  destruct config as [| | | | |m]; try discriminate. simpl in H.
  destruct (assoc "services" m) as [sv|]; try discriminate. simpl in H.
  destruct sv as [| | | | |svm]; try discriminate. simpl in H.
  destruct (assoc "tv_status_tracker" svm) as [t|]; try discriminate. simpl in H.
  destruct t as [| | | | |tm]; try discriminate. simpl in H.
  injection H as <-.
  do 3 (simpl; rewrite assoc_dict_set, String.eqb_refl). reflexivity.
Qed.

(** X8: When [setup_fonts] reports success, the font source exists and its
    content is at [Juventus-Fans-Bold.ttf] in a [fonts] directory, or inside
    it under the source's base name when that path was already a directory;
    the configuration it hands back has
    [services.tv_status_tracker.font_path] set to [fonts/Juventus-Fans-Bold.ttf]
    when the section exists, and is unchanged otherwise. *)
Theorem setup_fonts_success E config w cfg :
  out_res (setup_fonts E config w) = Ret (true, cfg) ->
  exists kc c,
    lookup_file w font_source = Some c /\
    let fd := join (join kc "fonts") "Juventus-Fans-Bold.ttf" in
    (isdir w fd = false -> FileIs fd c (out_world (setup_fonts E config w))) /\
    (isdir w fd = true ->
     FileIs (join fd (basename font_source)) c (out_world (setup_fonts E config w))) /\
    ( (has_tv_status_tracker config = Ret true /\
       (sv <-? py_getitem cfg "services" ;;
        t <-? py_getitem sv "tv_status_tracker" ;;
        py_getitem t "font_path") = Ret (YStr fd))
      \/ (has_tv_status_tracker config = Ret false /\ cfg = config)).
Proof.
  intros H. unfold setup_fonts in *.
  destruct (has_tv_status_tracker config) as [has|e] eqn:Hh; mstep; [|discriminate].
  match type of H with context [bind (lift ?r) _] =>
    lazymatch r with Ret _ => fail | _ => destruct r as [kc|e] eqn:Hk end end;
    mstep; [|discriminate].
  exists kc.
  set (fdir := join kc "fonts") in *.
  destruct (font_dest_neq fdir) as [Hd Ha].
  destruct (exists_ w fdir); [|destruct (mkdir_ok E fdir)]; cbn [negb] in *; mstep;
    try discriminate.
  all: match type of H with context [if exists_ ?w0 font_source then _ else _] =>
         destruct (exists_ w0 font_source) end; mstep; [|discriminate].
  all: unfold bind in H |- *;
       match type of H with context [copy_asset ?E0 ?s0 ?d0 ?w0] =>
         first [ pose proof (copy_asset_lands E0 s0 d0 w w0 fdir Hd Ha (or_introl eq_refl))
                   as Hland
               | pose proof (copy_asset_lands E0 s0 d0 w w0 fdir Hd Ha (or_intror eq_refl))
                   as Hland ];
         destruct (copy_asset E0 s0 d0 w0) as [r1 w1 l1] eqn:Hco end;
       cbn [out_res out_world out_log] in *.
  all: destruct r1 as [[|]|e]; cbn [lift ret out_res out_world out_log] in *; try discriminate.
  all: destruct (Hland eq_refl) as (c & Hs & Hf); clear Hland.
  all: exists c; split; [exact Hs|]; cbv zeta.
  all: destruct has;
       [destruct (set_font_path config _) as [cfg'|e] eqn:Hs' |];
       cbn [lift ret out_res out_world out_log] in *; try discriminate;
       injection H as <-.
  all: split; [intros Hi; rewrite Hi in Hf; exact Hf|].
  all: split; [intros Hi; rewrite Hi in Hf; exact Hf|].
  all: first [ left; split; [reflexivity | exact (set_font_path_get _ _ _ Hs')]
             | right; split; reflexivity ].
Qed.

Lemma setup_fonts_success_witness :
  let cfg0 := YMap [("services", YMap [("tv_status_tracker",
                       YMap [("collections_dir", YStr "/k/collections")])])] in
  let w0 := mkWorld [(font_source, FRaw "ttf")] ["/k/fonts/Juventus-Fans-Bold.ttf"] in
  exists kc c,
    lookup_file w0 font_source = Some c /\
    let fd := join (join kc "fonts") "Juventus-Fans-Bold.ttf" in
    (isdir w0 fd = false -> FileIs fd c (out_world (setup_fonts naruto_env cfg0 w0))) /\
    (isdir w0 fd = true ->
     FileIs (join fd (basename font_source)) c (out_world (setup_fonts naruto_env cfg0 w0))) /\
    ( (has_tv_status_tracker cfg0 = Ret true /\
       (sv <-? py_getitem (match out_res (setup_fonts naruto_env cfg0 w0) with
                           | Ret (_, c') => c' | Exc _ => YNull end) "services" ;;
        t <-? py_getitem sv "tv_status_tracker" ;;
        py_getitem t "font_path") = Ret (YStr fd))
      \/ (has_tv_status_tracker cfg0 = Ret false /\
          (match out_res (setup_fonts naruto_env cfg0 w0) with
           | Ret (_, c') => c' | Exc _ => YNull end) = cfg0)).
Proof.
  intros cfg0 w0. apply setup_fonts_success. vm_compute. reflexivity.
Defined.

(** ** Overlay files *)

Lemma emit_overlays_true E yod os : forall ocs success w,
  out_res (emit_overlays E yod os ocs success w) = Ret true ->
  success = true /\
  forall oc, In oc ocs -> exists_ (out_world (emit_overlays E yod os ocs success w))
                                  (join yod (oc_file oc)) = true.
Proof.
  induction ocs as [|oc ocs IH]; intros success w H; cbn [emit_overlays] in *.
  - unfold ret in *; cbn in H. injection H as ->. split; [reflexivity | intros ? []].
  - mstep. destruct (exists_ w (join yod (oc_file oc))) eqn:Ex.
    + destruct (IH _ _ H) as [Hs Hall]. split; [exact Hs|].
      intros oc' [<-|Hin]; [|auto].
      apply (emit_overlays_grows (fun w' => exists_ w' (join yod (oc_file oc)) = true));
        auto using exists_grows_add_dir, exists_grows_set_file.
    + destruct (overlay_content os oc) as [v|e]; mstep; [|discriminate].
      unfold try_, bind, write_file, ret in H |- *.
      destruct (write_ok E (join yod (oc_file oc))); cbn -[emit_overlays join] in H |- *.
      * match type of H with context [emit_overlays ?E0 ?y0 ?o0 ?l0 ?s0 ?w0] =>
          destruct (IH _ _ H) as [Hs Hall];
          destruct (emit_overlays E0 y0 o0 l0 s0 w0) as [r1 w1 l1] eqn:Hem end.
        cbn in H, Hall |- *. rewrite andb_true_r in Hs. split; [exact Hs|].
        intros oc' [<-|Hin]; [|auto].
        change w1 with (out_world (mkOut r1 w1 l1)); rewrite <- Hem.
        apply (emit_overlays_grows (fun w' => exists_ w' (join yod (oc_file oc)) = true));
          auto using exists_grows_add_dir, exists_grows_set_file.
        unfold exists_, lookup_file; cbn. now rewrite String.eqb_refl.
      * match type of H with context [emit_overlays ?E0 ?y0 ?o0 ?l0 ?s0 ?w0] =>
          destruct (IH _ _ H) as [Hs Hall];
          destruct (emit_overlays E0 y0 o0 l0 s0 w0) as [r1 w1 l1] eqn:Hem end.
        rewrite andb_false_r in Hs. discriminate.
Qed.

(** X9: When [create_anime_overlay_files] returns [True], each of the four
    overlay files is present in the overlay directory afterwards. *)
Theorem create_overlays_true_all_present E config w paths yod :
  get_kometa_paths config = Ret paths -> py_path (fst paths) = Ret yod ->
  out_res (create_anime_overlay_files E config w) = Ret true ->
  forall fn, In fn overlay_file_names ->
  exists_ (out_world (create_anime_overlay_files E config w)) (join yod fn) = true.
Proof.
  intros Hg Hy H fn Hfn. unfold create_anime_overlay_files in *.
  rewrite Hg in *; mstep.
  destruct (pyget config "services" (YMap [])) as [s|e]; mstep; [|discriminate].
  destruct (pyget s "anime_episode_type" (YMap [])) as [a|e]; mstep; [|discriminate].
  destruct (pyget a "overlay" (YMap [])) as [os|e]; mstep; [|discriminate].
  rewrite Hy in *; mstep.
  apply in_map_iff in Hfn. destruct Hfn as (oc & <- & Hoc).
  destruct (exists_ w yod); [|destruct (mkdir_ok E yod)]; cbn [negb] in *; mstep;
    try (cbn in H; discriminate).
  all: exact (proj2 (emit_overlays_true _ _ _ _ _ _ H) oc Hoc).
Qed.

Lemma exists_set_file_back x w p c :
  exists_ (set_file w p c) x = false -> exists_ w x = false.
Proof.
  intros H. destruct (exists_ w x) eqn:E; [|reflexivity].
  rewrite (exists_grows_set_file _ _ p c E) in H. discriminate.
Qed.

Lemma exists_add_dir_back x w d :
  exists_ (add_dir w d) x = false -> exists_ w x = false.
Proof.
  intros H. destruct (exists_ w x) eqn:E; [|reflexivity].
  rewrite (exists_grows_add_dir _ _ d E) in H. discriminate.
Qed.

Lemma emit_overlays_writes E yod os : forall ocs success w q c,
  In (q, c) (out_log (emit_overlays E yod os ocs success w)) ->
  exists oc v, In oc ocs /\ q = join yod (oc_file oc) /\ exists_ w q = false /\
               c = FYaml v /\ overlay_content os oc = Ret v.
Proof.
  induction ocs as [|oc ocs IH]; intros success w q c H; cbn [emit_overlays] in *.
  - cbn in H. contradiction.
  - mstep. destruct (exists_ w (join yod (oc_file oc))) eqn:Ex.
    + destruct (IH _ _ _ _ H) as (oc' & v & Hin & Hq & Hx & Hc & Hv).
      exists oc', v. repeat split; simpl; auto.
    + destruct (overlay_content os oc) as [v|e] eqn:Hv; mstep; [|cbn in H; contradiction].
      unfold try_, bind, write_file, ret in H.
      destruct (write_ok E (join yod (oc_file oc))); cbn -[emit_overlays join] in H.
      * destruct H as [H|H].
        -- injection H as <- <-. exists oc, v. repeat split; simpl; auto.
        -- rewrite ?app_nil_r in H.
           destruct (IH _ _ _ _ H) as (oc' & v' & Hin & Hq & Hx & Hc & Hv').
           exists oc', v'. repeat split; simpl; auto. exact (exists_set_file_back _ _ _ _ Hx).
      * destruct (IH _ _ _ _ H) as (oc' & v' & Hin & Hq & Hx & Hc & Hv').
        exists oc', v'. repeat split; simpl; auto.
Qed.

(** X10: [create_anime_overlay_files] writes only overlay files that were absent
    before the call, each one of the four, with the content built from its
    entry of [overlay_configs] and the [services.anime_episode_type.overlay]
    settings. *)
Theorem create_overlays_writes_missing E config w paths yod s a os q c :
  get_kometa_paths config = Ret paths -> py_path (fst paths) = Ret yod ->
  pyget config "services" (YMap []) = Ret s ->
  pyget s "anime_episode_type" (YMap []) = Ret a ->
  pyget a "overlay" (YMap []) = Ret os ->
  In (q, c) (out_log (create_anime_overlay_files E config w)) ->
  exists oc v, In oc overlay_configs /\ q = join yod (oc_file oc) /\
               exists_ w q = false /\ c = FYaml v /\ overlay_content os oc = Ret v.
Proof.
  intros Hg Hy Hs Ha Ho H. unfold create_anime_overlay_files in H.
  rewrite Hg in H; mstep. rewrite Hs in H; mstep. rewrite Ha in H; mstep.
  rewrite Ho in H; mstep. rewrite Hy in H; mstep.
  destruct (exists_ w yod); [|destruct (mkdir_ok E yod)]; cbn [negb] in *; mstep;
    try (cbn in H; contradiction).
  all: destruct (emit_overlays_writes _ _ _ _ _ _ _ _ H) as (oc & v & Hin & Hq & Hx & Hc & Hv);
       exists oc, v; repeat split; auto.
  exact (exists_add_dir_back _ _ _ Hx).
Qed.

Lemma create_overlays_true_all_present_witness :
  exists_ (out_world (create_anime_overlay_files naruto_env alice_config empty_world))
          (join "/kometa/config/overlays" "mixed.yml") = true.
Proof.
  apply (create_overlays_true_all_present naruto_env alice_config empty_world
           (YStr "/kometa/config/overlays", YStr "/kometa/config/collections")).
  - reflexivity.
  - reflexivity.
  - vm_compute. reflexivity.
  - unfold overlay_file_names. simpl. auto 6.
Defined.

Lemma create_overlays_writes_missing_witness :
  exists oc v, In oc overlay_configs /\
    join "/kometa/config/overlays" "fillers.yml" = join "/kometa/config/overlays" (oc_file oc) /\
    exists_ empty_world (join "/kometa/config/overlays" "fillers.yml") = false /\
    FYaml (match overlay_content (YMap []) (hd (mkOverlayCfg "" "" "" "") overlay_configs) with
           | Ret v' => v' | Exc _ => YNull end) = FYaml v /\
    overlay_content (YMap []) oc = Ret v.
Proof.
  apply (create_overlays_writes_missing naruto_env alice_config empty_world
           (YStr "/kometa/config/overlays", YStr "/kometa/config/collections")
           "/kometa/config/overlays" (YMap []) (YMap []) (YMap [])).
  - reflexivity.
  - reflexivity.
  - reflexivity.
  - reflexivity.
  - reflexivity.
  - vm_compute. left. reflexivity.
Defined.

(** ** Sync outcomes *)




(** X13: [update_anime_episode_collections] (a sync with [force_update])
    rewrites the collections file without consulting the change detection:
    when the lists are fetched, the rebuild from the prior file succeeds and
    the file can be written, its first write is the rebuilt document, which the
    file holds afterwards. *)
Theorem update_always_writes E config w paths cd d v :
  get_kometa_paths config = Ret paths -> py_path (snd paths) = Ret cd ->
  (exists_ w cd = true \/ mkdir_ok E cd = true) ->
  fetch_lists E config = Ret (Some d) ->
  build_new_collections (existing_of E w (join cd collections_file_name)) d = Ret v ->
  write_ok E (join cd collections_file_name) = true ->
  exists l,
    out_log (update_anime_episode_collections E config w) =
      (join cd collections_file_name, FYaml v) :: l /\
    FileIs (join cd collections_file_name) (FYaml v)
           (out_world (update_anime_episode_collections E config w)).
Proof.
  intros Hg Hc Hex Hf Hb Hw.
  unfold update_anime_episode_collections, sync_anime_episode_collections.
  rewrite Hg; mstep. rewrite Hc; mstep.
  destruct (exists_ w cd) eqn:E1;
    [|destruct Hex as [Hex|Hex]; [discriminate|]; rewrite Hex];
    cbn [negb]; rewrite Hf; mstep; try rewrite existing_of_add_dir; rewrite Hb; mstep.
  all: unfold try_, bind at 1, write_file; rewrite Hw; cbn -[create_anime_overlay_files join].
  all: unfold bind;
       match goal with |- context [create_anime_overlay_files ?E0 ?c0 ?w0] =>
         destruct (create_anime_overlay_files E0 c0 w0) as [r2 w2 l2] eqn:Hco end;
       destruct r2; cbn -[create_anime_overlay_files join];
       eexists; (split; [reflexivity|]);
       apply (f_equal out_world) in Hco; cbn [out_world] in Hco; rewrite <- Hco;
       apply create_overlays_keeps_files, FileIs_set_same.
Qed.

Lemma update_always_writes_witness :
  exists l,
    out_log (update_anime_episode_collections naruto_env alice_config empty_world) =
      (join "/kometa/config/collections" collections_file_name,
       FYaml (match build_new_collections empty_existing
                      (match fetch_lists naruto_env alice_config with
                       | Ret (Some d) => d | _ => [] end)
              with Ret v => v | Exc _ => YNull end)) :: l /\
    FileIs (join "/kometa/config/collections" collections_file_name)
           (FYaml (match build_new_collections empty_existing
                           (match fetch_lists naruto_env alice_config with
                            | Ret (Some d) => d | _ => [] end)
                   with Ret v => v | Exc _ => YNull end))
           (out_world (update_anime_episode_collections naruto_env alice_config empty_world)).
Proof.
  apply (update_always_writes _ _ _
           (YStr "/kometa/config/overlays", YStr "/kometa/config/collections")
           "/kometa/config/collections"
           (match fetch_lists naruto_env alice_config with Ret (Some d) => d | _ => [] end)).
  all: try (vm_compute; reflexivity).
  right. reflexivity.
Defined.

(** X14: A collections file that does not parse, or cannot be opened, reads as
    an empty document: a sync without [force_update] then returns [True]
    and writes nothing, so it never replaces such a file. *)
Theorem sync_keeps_unreadable_file E config w paths cd d :
  get_kometa_paths config = Ret paths -> py_path (snd paths) = Ret cd ->
  (exists_ w cd = true \/ mkdir_ok E cd = true) ->
  fetch_lists E config = Ret (Some d) ->
  ((exists s, lookup_file w (join cd collections_file_name) = Some (FRaw s)) \/
   (exists v, lookup_file w (join cd collections_file_name) = Some (FYaml v) /\
              read_ok E (join cd collections_file_name) = false)) ->
  out_res (sync_anime_episode_collections E config false w) = Ret true /\
  out_log (sync_anime_episode_collections E config false w) = [].
Proof.
  intros Hg Hc Hex Hf Hprior.
  apply (sync_no_change _ _ _ paths cd d Hg Hc Hex Hf).
  destruct Hprior as [(s & Hl)|(v & Hl & Hr)].
  - unfold existing_of. rewrite Hl.
    destruct (exists_ w (join cd collections_file_name)); reflexivity.
  - rewrite (existing_of_FileIs _ _ _ _ Hl), Hr. reflexivity.
Qed.

Lemma sync_keeps_unreadable_file_witness :
  out_res (sync_anime_episode_collections naruto_env alice_config false
             (mkWorld [(default_collections_file, FRaw "collections: [")] [])) = Ret true /\
  out_log (sync_anime_episode_collections naruto_env alice_config false
             (mkWorld [(default_collections_file, FRaw "collections: [")] [])) = [].
Proof.
  apply (sync_keeps_unreadable_file _ _ _
           (YStr "/kometa/config/overlays", YStr "/kometa/config/collections")
           "/kometa/config/collections"
           (match fetch_lists naruto_env alice_config with Ret (Some d) => d | _ => [] end)).
  all: try (vm_compute; reflexivity).
  - right. reflexivity.
  - left. exists "collections: [". reflexivity.
Defined.

(** ** Change detection and classification *)

Lemma subset_b_strs a b :
  (forall u, In u a -> In u b) -> subset_b (map AStr a) (map AStr b) = true.
Proof.
  intros H. unfold subset_b. apply forallb_forall. intros x Hx.
  apply in_map_iff in Hx. destruct Hx as (u & <- & Hu).
  apply existsb_exists. exists (AStr u). split.
  - apply in_map, H, Hu.
  - simpl. apply String.eqb_refl.
Qed.

(** X15: Change detection compares URL sets: a prior [trakt_list] holding the
    fresh URLs of its category in another order, or with repeats, is no
    change, and detection goes on with the next entry. *)
Theorem detect_items_as_sets d n m us urls rest :
  assoc n d = Some urls ->
  assoc "trakt_list" m = Some (YList (map YStr us)) ->
  (forall u, In u us <-> In u urls) ->
  detect_items d ((n, YMap m) :: rest) = detect_items d rest.
Proof.
  intros Hn Ht Hiff. cbn [detect_items]. unfold pyget. rewrite Ht. cbn [rbind].
  rewrite py_set_urls. cbn [rbind]. rewrite Hn.
  unfold set_eqb. rewrite !subset_b_strs; [reflexivity| |]; intros u; apply Hiff.
Qed.

Lemma detect_items_as_sets_witness :
  detect_items [("Fillers", ["u1"; "u2"])]
    [("Fillers", YMap [("trakt_list", YList [YStr "u2"; YStr "u1"; YStr "u2"])])] =
  detect_items [("Fillers", ["u1"; "u2"])] [].
Proof.
  apply (detect_items_as_sets _ _ _ ["u2"; "u1"; "u2"] ["u1"; "u2"]); try reflexivity.
  intros u. simpl. intuition.
Defined.

Lemma is_substring_app_underscore a t : is_substring "_" (a ++ String "_" t) = true.
Proof.
  induction a as [|c a IH]; simpl.
  - reflexivity.
  - rewrite IH. apply orb_true_r.
Qed.

Lemma split_first_app_underscore a t :
  ~ In "_"%char (list_ascii_of_string a) ->
  split_first "_"%char (a ++ String "_" t) = Some (a, t).
Proof.
  induction a as [|c a IH]; simpl; intros Hn.
  - reflexivity.
  - destruct (Ascii.eqb c "_"%char) eqn:E.
    + apply Ascii.eqb_eq in E. exfalso. auto.
    + rewrite IH by auto. reflexivity.
Qed.

Lemma is_substring_no_underscore s :
  ~ In "_"%char (list_ascii_of_string s) -> is_substring "_" s = false.
Proof.
  induction s as [|c s IH]; intros Hn.
  - reflexivity.
  - cbn [is_substring is_prefix list_ascii_of_string] in *.
    destruct (Ascii.eqb "_"%char c) eqn:E.
    + apply Ascii.eqb_eq in E. subst c. exfalso. apply Hn. left. reflexivity.
    + cbn [andb orb]. apply IH. intros H. apply Hn. right. exact H.
Qed.

(** X16: A Trakt list named [<anime>_<type>] (no underscore in [<anime>]) is
    classified by the text after the first underscore, lower-cased, and its
    URL ends with the list's slug, or with its full name when the list has
    no [ids]. *)
Theorem classify_one_named user m a t :
  assoc "name" m = Some (YStr (a ++ String "_" t)) ->
  ~ In "_"%char (list_ascii_of_string a) ->
  (forall ids sl, assoc "ids" m = Some (YMap ids) -> assoc "slug" ids = Some (YStr sl) ->
   classify_one user (YMap m) =
   Ret (match category_of (lower t) with
        | Some c => Some (c, "https://trakt.tv/users/" ++ user ++ "/lists/" ++ sl)
        | None => None
        end)) /\
  (assoc "ids" m = None ->
   classify_one user (YMap m) =
   Ret (match category_of (lower t) with
        | Some c => Some (c, "https://trakt.tv/users/" ++ user ++ "/lists/"
                             ++ (a ++ String "_" t))
        | None => None
        end)).
Proof.
  intros Hn Ha. unfold classify_one, pyget, py_contains. rewrite Hn. cbn [rbind].
  rewrite is_substring_app_underscore. cbn [negb].
  rewrite (split_first_app_underscore _ _ Ha). split.
  - intros ids sl Hi Hs. rewrite Hi. cbn [rbind]. rewrite Hs. reflexivity.
  - intros Hi. rewrite Hi. reflexivity.
Qed.

Lemma classify_one_named_witness :
  (forall ids sl,
     assoc "ids" [("name", YStr "Naruto_FILLER"); ("ids", YMap [("slug", YStr "nf")])] =
       Some (YMap ids) ->
     assoc "slug" ids = Some (YStr sl) ->
     classify_one "alice" (YMap [("name", YStr "Naruto_FILLER");
                                 ("ids", YMap [("slug", YStr "nf")])]) =
     Ret (match category_of (lower "FILLER") with
          | Some c => Some (c, "https://trakt.tv/users/" ++ "alice" ++ "/lists/" ++ sl)
          | None => None
          end)) /\
  (assoc "ids" [("name", YStr "Naruto_FILLER"); ("ids", YMap [("slug", YStr "nf")])] = None ->
   classify_one "alice" (YMap [("name", YStr "Naruto_FILLER");
                               ("ids", YMap [("slug", YStr "nf")])]) =
   Ret (match category_of (lower "FILLER") with
        | Some c => Some (c, "https://trakt.tv/users/" ++ "alice" ++ "/lists/"
                             ++ ("Naruto" ++ String "_" "FILLER"))
        | None => None
        end)).
Proof.
  apply (classify_one_named "alice" _ "Naruto" "FILLER").
  - reflexivity.
  - simpl. intuition discriminate.
Defined.

(** X17: A Trakt list without a name, or whose name holds no underscore, is not
    classified. *)
Theorem classify_one_skips user m s :
  (assoc "name" m = None \/
   (assoc "name" m = Some (YStr s) /\ ~ In "_"%char (list_ascii_of_string s))) ->
  classify_one user (YMap m) = Ret None.
Proof.
  unfold classify_one, pyget, py_contains. intros [Hn|[Hn Hs]]; rewrite Hn.
  - reflexivity.
  - cbn [rbind]. rewrite (is_substring_no_underscore _ Hs). reflexivity.
Qed.

Lemma classify_one_skips_witness :
  classify_one "alice" (YMap [("name", YStr "Naruto Filler")]) = Ret None.
Proof.
  apply (classify_one_skips _ _ "Naruto Filler"). right. split; [reflexivity|].
  simpl. intuition discriminate.
Defined.

(** ** Defaults of the rebuilt entries *)

Lemma new_settings_default existing n urls s :
  coll_entry existing n = None -> new_settings existing n urls = Ret s ->
  s = default_settings n urls.
Proof.
  intros Hc H. unfold new_settings in H.
  destruct (truthy existing) eqn:Ht; cbn [rbind] in H; [|injection H as <-; reflexivity].
  destruct existing as [| | | |l|top]; cbn [py_contains py_getitem rbind] in H.
  all: try discriminate.
  - destruct (is_substring _ _); cbn [rbind] in H; [discriminate|injection H as <-; reflexivity].
  - destruct (existsb _ _); cbn [rbind] in H; [discriminate|injection H as <-; reflexivity].
  - cbn [coll_entry] in Hc.
    destruct (assoc "collections" top) as [cs|] eqn:Ea; cbn [rbind] in H;
      [|injection H as <-; reflexivity].
    destruct cs as [| | |x|l|cm]; cbn [py_contains py_getitem rbind] in H; try discriminate.
    + destruct (is_substring _ _); cbn [rbind] in H; [discriminate|injection H as <-; reflexivity].
    + destruct (existsb _ _); cbn [rbind] in H; [discriminate|injection H as <-; reflexivity].
    + rewrite Hc in H. cbn [rbind] in H. injection H as <-. reflexivity.
Qed.

Lemma build_entries_settings existing : forall d acc entries n urls,
  build_entries existing d acc = Ret entries -> In (n, urls) d ->
  exists s, new_settings existing n urls = Ret s.
Proof.
  induction d as [|[k u] d IH]; simpl; intros acc entries n urls H Hin; [contradiction|].
  destruct (new_settings existing k u) as [s|e] eqn:Es; simpl in H; [|discriminate].
  destruct Hin as [Hin|Hin]; [injection Hin as -> ->; eauto|exact (IH _ _ _ _ H Hin)].
Qed.

Lemma assoc_In {A} (l : list (string * A)) n v : assoc n l = Some v -> In (n, v) l.
Proof.
  induction l as [|[k x] l IH]; simpl; [discriminate|].
  destruct (String.eqb n k) eqn:E; intros H.
  - apply String.eqb_eq in E. injection H as <-. subst. auto.
  - auto.
Qed.

(** X18: When a sync writes the collections file, a fixed category without an
    entry in the prior document gets the default settings built from the
    fresh URLs: [sync_mode: sync], [builder_level: episode],
    [cache_builders: 6] and the [item_label] derived from its name. *)
Theorem sync_new_category_defaults E config f w p c n :
  collections_path config = Ret p ->
  In (p, c) (out_log (sync_anime_episode_collections E config f w)) ->
  In n category_names -> coll_entry (existing_of E w p) n = None ->
  exists d urls entries,
    fetch_lists E config = Ret (Some d) /\ assoc n d = Some urls /\
    c = FYaml (YMap [("collections", YMap entries)]) /\
    assoc n entries = Some (default_settings n urls).
Proof.
  intros Hp Hin Hn Hnone.
  destruct (sync_collections_write _ _ _ _ _ _ Hp Hin)
    as (paths & cd & d & v & _ & _ & _ & Hf & _ & -> & Hb & _ & _).
  pose proof (fetch_lists_keys _ _ _ Hf) as Hk.
  pose proof (fetch_lists_NoDup _ _ _ Hf) as Hnd.
  rewrite <- Hk in Hn. destruct (assoc_of_key _ _ Hn) as (urls & Hu).
  unfold build_new_collections in Hb.
  destruct (build_entries _ d []) as [entries|e] eqn:Eb; cbn [rbind] in Hb; [|discriminate].
  injection Hb as <-.
  destruct (build_entries_settings _ _ _ _ _ _ Eb (assoc_In _ _ _ Hu)) as (s & Hs).
  exists d, urls, entries. repeat split; auto.
  rewrite (build_entries_assoc _ _ _ _ _ _ _ Eb Hnd Hu Hs).
  rewrite (new_settings_default _ _ _ _ Hnone Hs). reflexivity.
Qed.

Lemma sync_new_category_defaults_witness :
  exists d urls entries,
    fetch_lists naruto_env alice_config = Ret (Some d) /\ assoc "Manga Canon" d = Some urls /\
    FYaml (match written_doc default_collections_file
                   (out_log (sync_anime_episode_collections naruto_env alice_config true
                               (world_with_collections custom_prior))) with
           | Some v => v | None => YNull end) =
      FYaml (YMap [("collections", YMap entries)]) /\
    assoc "Manga Canon" entries = Some (default_settings "Manga Canon" urls).
Proof.
  apply (sync_new_category_defaults _ _ true (world_with_collections custom_prior)
           default_collections_file).
  - vm_compute. reflexivity.
  - vm_compute. left. reflexivity.
  - simpl. auto.
  - vm_compute. reflexivity.
Defined.

(** ** Exceptions of the overlay creation *)

Lemma overlay_file_not_dir yod fn : In fn overlay_file_names -> join yod fn <> yod.
Proof.
  intros Hin. apply join_not_dir.
  - simpl in Hin; destruct Hin as [<-|[<-|[<-|[<-|[]]]]]; reflexivity.
  - simpl in Hin; destruct Hin as [<-|[<-|[<-|[<-|[]]]]]; discriminate.
Qed.

Lemma emit_overlays_dict E yod m : forall ocs success w,
  exists b, out_res (emit_overlays E yod (YMap m) ocs success w) = Ret b.
Proof.
  induction ocs as [|oc ocs IH]; intros success w; cbn [emit_overlays].
  - eexists. reflexivity.
  - mstep. destruct (exists_ w (join yod (oc_file oc))); [apply IH|].
    unfold overlay_content at 1. cbn [pyget rbind]. mstep.
    unfold try_, bind at 1, write_file.
    destruct (write_ok E (join yod (oc_file oc))); cbn -[emit_overlays join overlay_content];
      unfold bind;
      match goal with |- context [emit_overlays ?E0 ?y0 ?o0 ?l0 ?s0 ?w0] =>
        destruct (IH s0 w0) as [b Hb];
        destruct (emit_overlays E0 y0 o0 l0 s0 w0) as [r1 w1 l1] eqn:Hem end;
      cbn in Hb |- *; subst r1; eexists; reflexivity.
Qed.

Lemma emit_overlays_not_dict E yod os : forall ocs success w,
  (forall m, os <> YMap m) ->
  (exists oc, In oc ocs /\ exists_ w (join yod (oc_file oc)) = false) ->
  out_res (emit_overlays E yod os ocs success w) = Exc AttributeError.
Proof.
  induction ocs as [|oc ocs IH]; intros success w Hos (oc' & Hin & Hx); cbn [emit_overlays];
    [contradiction|].
  mstep. destruct (exists_ w (join yod (oc_file oc))) eqn:Ex.
  - apply IH; [exact Hos|]. exists oc'. split; [|exact Hx].
    destruct Hin as [<-|Hin]; [congruence | exact Hin].
  - unfold overlay_content, pyget.
    destruct os as [| | | | |m]; [| | | | |exfalso; exact (Hos m eq_refl)]; reflexivity.
Qed.

(** X19: Once the overlay directory is in place, [create_anime_overlay_files]
    raises only through its settings: when the
    [services.anime_episode_type.overlay] settings are a mapping it returns
    a boolean, failed writes included; when they are not, it raises
    [AttributeError] as soon as one overlay file is missing. *)
Theorem create_overlays_raise_only_on_settings E config w paths yod s a os :
  get_kometa_paths config = Ret paths -> py_path (fst paths) = Ret yod ->
  pyget config "services" (YMap []) = Ret s ->
  pyget s "anime_episode_type" (YMap []) = Ret a ->
  pyget a "overlay" (YMap []) = Ret os ->
  (exists_ w yod = true \/ mkdir_ok E yod = true) ->
  ((exists m, os = YMap m) ->
   exists b, out_res (create_anime_overlay_files E config w) = Ret b) /\
  ((forall m, os <> YMap m) ->
   (exists fn, In fn overlay_file_names /\ exists_ w (join yod fn) = false) ->
   out_res (create_anime_overlay_files E config w) = Exc AttributeError).
Proof.
  intros Hg Hy Hs Ha Ho Hex. unfold create_anime_overlay_files.
  rewrite Hg; mstep. rewrite Hs; mstep. rewrite Ha; mstep. rewrite Ho; mstep.
  rewrite Hy; mstep.
  split.
  - intros (m & ->).
    destruct (exists_ w yod); [|destruct Hex as [Hex|Hex]; [discriminate|]; rewrite Hex];
      cbn [negb]; apply emit_overlays_dict.
  - intros Hos (fn & Hfn & Hx).
    apply in_map_iff in Hfn. destruct Hfn as (oc & <- & Hoc).
    destruct (exists_ w yod) eqn:Ed;
      [|destruct Hex as [Hex|Hex]; [discriminate|]; rewrite Hex];
      cbn [negb]; apply emit_overlays_not_dict; auto; exists oc; split; auto.
    rewrite exists_add_dir_other; [exact Hx|].
    intros Heq. apply (overlay_file_not_dir yod (oc_file oc)); [apply in_map, Hoc|auto].
Qed.

Lemma create_overlays_raise_only_on_settings_witness :
  let cfg0 := YMap [("services", YMap [("anime_episode_type",
                       YMap [("overlay", YStr "big")])])] in
  ((exists m, YStr "big" = YMap m) ->
   exists b, out_res (create_anime_overlay_files naruto_env cfg0 empty_world) = Ret b) /\
  ((forall m, YStr "big" <> YMap m) ->
   (exists fn, In fn overlay_file_names /\
               exists_ empty_world (join "/kometa/config/overlays" fn) = false) ->
   out_res (create_anime_overlay_files naruto_env cfg0 empty_world) = Exc AttributeError).
Proof.
  intros cfg0.
  apply (create_overlays_raise_only_on_settings _ _ _
           (YStr "/kometa/config/overlays", YStr "/kometa/config/collections")
           "/kometa/config/overlays"
           (YMap [("anime_episode_type", YMap [("overlay", YStr "big")])])
           (YMap [("overlay", YStr "big")])); try reflexivity.
  right. reflexivity.
Defined.

(** ** Sequences of calls *)

(** X20: No sequence of overlay creations and syncs removes anything: a file or
    directory present before is still present after. *)
Theorem run_calls_never_removes E cs : forall w x,
  exists_ w x = true -> exists_ (run_calls E cs w) x = true.
Proof.
  induction cs as [|[config|config f] cs IH]; intros w x Hx; cbn [run_calls]; [exact Hx| |].
  - apply IH.
    apply (create_overlays_grows (fun w' => exists_ w' x = true));
      auto using exists_grows_add_dir, exists_grows_set_file.
  - apply IH.
    apply (sync_grows (fun w' => exists_ w' x = true));
      auto using exists_grows_add_dir, exists_grows_set_file.
Qed.

Lemma run_calls_never_removes_witness :
  exists_ (run_calls naruto_env [CallSync alice_config true; CallEmit alice_config]
             custom_overlay_world) "/kometa/config/overlays/fillers.yml" = true.
Proof. apply run_calls_never_removes. reflexivity. Defined.

Lemma copy_asset_outcome_witness :
  let w0 := mkWorld [(poster_source, FRaw "jpg")] ["/k/poster.jpg"] in
  exists c t, lookup_file w0 poster_source = Some c /\ t <> poster_source /\
    out_log (copy_asset naruto_env poster_source "/k/poster.jpg" w0) = [(t, c)] /\
    FileIs t c (out_world (copy_asset naruto_env poster_source "/k/poster.jpg" w0)) /\
    (t = "/k/poster.jpg" \/ t = join "/k/poster.jpg" (basename poster_source)) /\
    (dirname "/k/poster.jpg" <> "/k/poster.jpg" ->
     t = copy_target w0 poster_source "/k/poster.jpg").
Proof.
  intros w0. apply (proj1 (copy_asset_outcome naruto_env poster_source "/k/poster.jpg" w0)).
  vm_compute. reflexivity.
Defined.
